(** * codeclip: a shallow embedding of [codeclip.js] and its checked properties

    The program copies the text files below the working directory to the
    clipboard, under a byte budget.  This development embeds

    - the platform values the program computes with ([Js]): UTF-16
      strings, byte buffers, floating-point division, POSIX paths;
    - the binary detector [isBinaryFile];
    - the repository locator [isGitRepo] and the rule loader
      [loadGitIgnoreRules];
    - the tree walker [processDirectory], with its two process-wide
      variables [currentSize] and [limitReached] threaded as a state,
      and the exception that [buffer.toString] can throw in it;
    - the entry point [main], with the handler of [main().catch].

    Definitions come first, theorems after. *)

From Stdlib Require Import ZArith List Bool String Ascii Lia.
From Stdlib Require Import Floats Uint63.
Import ListNotations.
Set Warnings "-register-all".
Open Scope Z_scope.

(* ================================================================== *)
(** ** Platform values *)
(* ================================================================== *)

Module Js.

(** A JavaScript string is a sequence of UTF-16 code units. *)
Definition jsstring := list Z.

(** A [Buffer] is a sequence of bytes, each in [0, 255]. *)
Definition buffer := list Z.

(** An ASCII literal of the source text, as code units.  The escape
    [\n] of a source literal is written [nl]. *)
Fixpoint lit (s : string) : jsstring :=
  match s with
  | EmptyString => []
  | String c t => Z.of_nat (nat_of_ascii c) :: lit t
  end.

Definition nl : jsstring := [10].

(** [s.length] and [buffer.length]. *)
Definition len {A} (l : list A) : Z := Z.of_nat (List.length l).

(** [a === b] on strings. *)
Fixpoint str_eqb (a b : jsstring) : bool :=
  match a, b with
  | [], [] => true
  | x :: a', y :: b' => (x =? y) && str_eqb a' b'
  | _, _ => false
  end.

(** [s.startsWith(p)]. *)
Fixpoint startsWith (p s : jsstring) : bool :=
  match p, s with
  | [], _ => true
  | x :: p', y :: s' => (x =? y) && startsWith p' s'
  | _ :: _, [] => false
  end.

(** Truthiness of a string: the empty string is the only falsy one. *)
Definition truthy (s : jsstring) : bool :=
  match s with [] => false | _ :: _ => true end.

Definition isHighSurrogate (c : Z) : bool := (0xD800 <=? c) && (c <=? 0xDBFF).
Definition isLowSurrogate (c : Z) : bool := (0xDC00 <=? c) && (c <=? 0xDFFF).

(** [Buffer.byteLength(s, 'utf8')]: the length of the UTF-8 encoding.
    A surrogate pair is one code point of four bytes; a lone surrogate
    is encoded as U+FFFD, three bytes. *)
Fixpoint byteLength (s : jsstring) : Z :=
  match s with
  | [] => 0
  | c :: t =>
      if c <? 0x80 then 1 + byteLength t
      else if c <? 0x800 then 2 + byteLength t
      else if isHighSurrogate c then
        match t with
        | d :: t' => if isLowSurrogate d then 4 + byteLength t'
                     else 3 + byteLength t
        | [] => 3
        end
      else 3 + byteLength t
  end.

(** *** UTF-8 decoding

    The UTF-8 decoder of the platform (the WHATWG decoding algorithm):
    an ill-formed sequence is replaced by U+FFFD, and the byte that
    ended it is decoded again from the initial state. *)
Record decoder := {
  needed : Z;          (* continuation bytes still expected *)
  codepoint : Z;       (* bits gathered so far *)
  lower : Z;           (* bounds for the next continuation byte *)
  upper : Z
}.

Definition idle : decoder :=
  {| needed := 0; codepoint := 0; lower := 0x80; upper := 0xBF |}.

Definition replacement : Z := 0xFFFD.

(** A code point as UTF-16 code units. *)
Definition utf16 (cp : Z) : jsstring :=
  if cp <? 0x10000 then [cp]
  else [0xD800 + Z.shiftr (cp - 0x10000) 10;
        0xDC00 + Z.land (cp - 0x10000) 0x3FF].

(** A byte read in the initial state. *)
Definition lead (b : Z) : jsstring * decoder :=
  if b <=? 0x7F then ([b], idle)
  else if (0xC2 <=? b) && (b <=? 0xDF) then
    ([], {| needed := 1; codepoint := Z.land b 0x1F;
            lower := 0x80; upper := 0xBF |})
  else if (0xE0 <=? b) && (b <=? 0xEF) then
    ([], {| needed := 2; codepoint := Z.land b 0xF;
            lower := if b =? 0xE0 then 0xA0 else 0x80;
            upper := if b =? 0xED then 0x9F else 0xBF |})
  else if (0xF0 <=? b) && (b <=? 0xF4) then
    ([], {| needed := 3; codepoint := Z.land b 0x7;
            lower := if b =? 0xF0 then 0x90 else 0x80;
            upper := if b =? 0xF4 then 0x8F else 0xBF |})
  else ([replacement], idle).

Definition decode_byte (d : decoder) (b : Z) : jsstring * decoder :=
  if needed d =? 0 then lead b
  else if (lower d <=? b) && (b <=? upper d) then
    let cp := Z.lor (Z.shiftl (codepoint d) 6) (Z.land b 0x3F) in
    if needed d =? 1 then (utf16 cp, idle)
    else ([], {| needed := needed d - 1; codepoint := cp;
                 lower := 0x80; upper := 0xBF |})
  else
    let '(out, d') := lead b in (replacement :: out, d').

Fixpoint decode (d : decoder) (bytes : buffer) : jsstring :=
  match bytes with
  | [] => if needed d =? 0 then [] else [replacement]
  | b :: rest => let '(out, d') := decode_byte d b in out ++ decode d' rest
  end.

(** The text a buffer holds, whatever its length. *)
Definition decodeUtf8 (b : buffer) : jsstring := decode idle b.

(** The longest string the platform can hold, in code units. *)
Definition maxStringLength : Z := 0x1fffffe8.

(** [buffer.toString('utf8')]: the decoded text, or [None] when the
    call throws ("Cannot create a string longer than 0x1fffffe8
    characters").  The platform compares the number of bytes with the
    longest string before it decodes them; a decoded text has no more
    code units than the buffer has bytes, so the call throws whenever
    the text would be longer than [maxStringLength]. *)
Definition toString (b : buffer) : option jsstring :=
  if len b >? maxStringLength then None else Some (decodeUtf8 b).

(** *** [s.toLowerCase()]

    The Unicode lower-casing of the platform.  The program only compares
    lower-cased text with Basic Latin literals (the extension denylist
    and ["y"]), so the embedding carries the mappings whose result
    contains a Basic Latin letter: [A]-[Z], U+212A (Kelvin sign, to
    [k]) and U+0130 (to [i] followed by U+0307).  Any other code unit is
    mapped outside Basic Latin by the platform and is kept here as it
    is. *)
Definition lowerUnit (c : Z) : jsstring :=
  if (65 <=? c) && (c <=? 90) then [c + 32]
  else if c =? 0x212A then [107]
  else if c =? 0x130 then [105; 0x307]
  else [c].

Definition toLowerCase (s : jsstring) : jsstring := flat_map lowerUnit s.

(** *** [path.extname(p)] (POSIX)

    The scan of the platform's [extname], from the last code unit to the
    first.  [scan] holds the variables of that loop; positions are
    counted from the start of the string. *)
Record scan := {
  startDot : Z;
  startPart : Z;
  endPos : Z;
  matchedSlash : bool;
  preDotState : Z;
  stopped : bool
}.

Definition scan0 : scan :=
  {| startDot := -1; startPart := 0; endPos := -1;
     matchedSlash := true; preDotState := 0; stopped := false |}.

Definition slash : Z := 47.
Definition dot : Z := 46.

(** One iteration of the loop, at position [i] holding [code]. *)
Definition scan_step (i code : Z) (s : scan) : scan :=
  if stopped s then s
  else if code =? slash then
    if negb (matchedSlash s) then
      {| startDot := startDot s; startPart := i + 1; endPos := endPos s;
         matchedSlash := matchedSlash s; preDotState := preDotState s;
         stopped := true |}
    else s
  else
    let s1 :=
      if endPos s =? -1 then
        {| startDot := startDot s; startPart := startPart s; endPos := i + 1;
           matchedSlash := false; preDotState := preDotState s;
           stopped := false |}
      else s in
    if code =? dot then
      if startDot s1 =? -1 then
        {| startDot := i; startPart := startPart s1; endPos := endPos s1;
           matchedSlash := matchedSlash s1; preDotState := preDotState s1;
           stopped := false |}
      else if negb (preDotState s1 =? 1) then
        {| startDot := startDot s1; startPart := startPart s1;
           endPos := endPos s1; matchedSlash := matchedSlash s1;
           preDotState := 1; stopped := false |}
      else s1
    else if negb (startDot s1 =? -1) then
      {| startDot := startDot s1; startPart := startPart s1;
         endPos := endPos s1; matchedSlash := matchedSlash s1;
         preDotState := -1; stopped := false |}
    else s1.

(** The loop [for (i = path.length - 1; i >= 0; --i)]: the code units
    are visited last first; [i] is the position of the head of [p]. *)
Fixpoint scan_from (i : Z) (p : jsstring) (s : scan) : scan :=
  match p with
  | [] => s
  | code :: rest => scan_step i code (scan_from (i + 1) rest s)
  end.

(** [s.slice(a, b)] for [0 <= a <= b]. *)
Definition slice (s : jsstring) (a b : Z) : jsstring :=
  firstn (Z.to_nat (b - a)) (skipn (Z.to_nat a) s).

Definition extname (p : jsstring) : jsstring :=
  let s := scan_from 0 p scan0 in
  if (startDot s =? -1)
     || (endPos s =? -1)
     || (preDotState s =? 0)
     || ((preDotState s =? 1)
         && (startDot s =? endPos s - 1)
         && (startDot s =? startPart s + 1))
  then []
  else slice p (startDot s) (endPos s).

(** *** Numbers

    A JavaScript number is a binary64 float.  The counters of the
    program are integers well below [2^53], held exactly. *)
Definition number (n : Z) : float := PrimFloat.of_uint63 (Uint63.of_Z n).

(** The literal [0.3], rounded to binary64. *)
Definition three_tenths : float := 0x1.3333333333333p-2%float.

End Js.

Import Js.
Open Scope string_scope.
Open Scope list_scope.
Open Scope Z_scope.

(* ================================================================== *)
(** ** Paths *)
(* ================================================================== *)

(** The program handles normalized absolute POSIX paths only: the
    working directory, and what [path.join] and [path.dirname] make of
    it.  Such a path is the list of its components, innermost first;
    the filesystem root has none. *)
Module Path.

Definition path := list jsstring.

(** [path.parse(p).root] *)
Definition root : path := [].

(** [path.join(p, name)], for [name] a single component. *)
Definition join (p : path) (name : jsstring) : path := name :: p.

(** [path.dirname(p)]; the root is its own parent. *)
Definition dirname (p : path) : path := tl p.

(** [path.basename(p)]; empty for the root. *)
Definition basename (p : path) : jsstring := hd [] p.

Fixpoint eqb (a b : path) : bool :=
  match a, b with
  | [], [] => true
  | x :: a', y :: b' => str_eqb x y && eqb a' b'
  | _, _ => false
  end.

Fixpoint joinWith (sep : jsstring) (l : list jsstring) : jsstring :=
  match l with
  | [] => []
  | [x] => x
  | x :: t => x ++ sep ++ joinWith sep t
  end.

(** The path as the string the program holds. *)
Definition toStr (p : path) : jsstring :=
  [slash] ++ joinWith [slash] (rev p).

(** [path.relative(from, to)], for [to] at or below [from], which is how
    the walker calls it: the components of [to] that follow [from]. *)
Definition relative (from to : path) : jsstring :=
  joinWith [slash] (rev (firstn (List.length to - List.length from) to)).

End Path.

Import Path.

(* ================================================================== *)
(** ** Binary detection *)
(* ================================================================== *)

Definition binaryExts : list jsstring :=
  map lit
    [".exe"; ".dll"; ".so"; ".dylib"; ".class"; ".jar"; ".pyc"; ".o"; ".obj";
     ".jpg"; ".jpeg"; ".png"; ".gif"; ".bmp"; ".ico"; ".webp"; ".psd"; ".tiff";
     ".mp3"; ".wav"; ".flac"; ".aac"; ".ogg"; ".mp4"; ".avi"; ".mov"; ".mkv";
     ".flv";
     ".pdf"; ".doc"; ".docx"; ".xls"; ".xlsx"; ".ppt"; ".pptx"; ".odt";
     ".zip"; ".rar"; ".7z"; ".tar"; ".gz"; ".bz2"; ".xz"; ".tgz";
     ".db"; ".sqlite"; ".mdb"].

(** [set.has(x)] *)
Definition has (set : list jsstring) (x : jsstring) : bool :=
  existsb (str_eqb x) set.

(** [buffer.includes(v)] *)
Definition includes (b : buffer) (v : Z) : bool :=
  existsb (Z.eqb v) b.

(** The body of the counting loop, for one sampled byte. *)
Definition countByte (nonPrintable byte : Z) : Z :=
  if (byte <? 32) && negb (byte =? 9) && negb (byte =? 10)
     && negb (byte =? 13)
  then nonPrintable + 1 else nonPrintable.

Definition isBinaryFile (buffer : buffer) (filePath : jsstring) : bool :=
  (* 1. Extension check *)
  let ext := toLowerCase (extname filePath) in
  if has binaryExts ext then true
  (* 2. Null byte check *)
  else if includes buffer 0 then true
  else
    (* 3. Control character check *)
    let sampleSize := Z.min (len buffer) 8000 in
    let nonPrintable :=
      fold_left countByte (firstn (Z.to_nat sampleSize) buffer) 0 in
    PrimFloat.ltb three_tenths
      (PrimFloat.div (number nonPrintable) (number sampleSize)).

(* ================================================================== *)
(** ** The files below the working directory *)
(* ================================================================== *)

(** What [fs.lstatSync], [fs.readdirSync] and [fs.readFileSync] report
    for a directory entry.  Symbolic links are never followed, so the
    entries below a directory form a tree; a directory lists its
    entries in the order [readdirSync] returns them. *)
Inductive node :=
| Dir (listing : option (list (jsstring * node)))
    (* a directory; [None] when [readdirSync] throws *)
| File (data : option buffer)
    (* a regular file; [None] when [readFileSync] throws *)
| Symlink
| Other        (* a socket, a pipe, a device *)
| NoStat.      (* [lstatSync] throws *)

Definition lstatFails (n : node) : bool :=
  match n with NoStat => true | _ => false end.

Definition isSymbolicLink (n : node) : bool :=
  match n with Symlink => true | _ => false end.

(* ================================================================== *)
(** ** The traversal accumulator *)
(* ================================================================== *)

Definition MAX_SIZE : Z := 5 * 1024 * 1024.

Inductive unit_kind := RootHeader | FolderHeader | BinaryNote | FileBlock.

(** What a run does, in order.  [Emit k p text n]: a unit of kind [k]
    for the relative path [p] is appended to an output string, [text]
    being the text it adds to the run's output, and [currentSize] is
    [n] afterwards. *)
Inductive event :=
| ReadDir (dirPath : path)
| LimitSet
| Emit (kind : unit_kind) (relativePath : jsstring) (text : jsstring)
       (sizeAfter : Z).

(** The two process-wide variables, and the history of the run so far.
    The history is only ever extended; nothing reads it. *)
Record state := {
  currentSize : Z;
  limitReached : bool;
  history : list event
}.

Definition initial : state :=
  {| currentSize := 0; limitReached := false; history := [] |}.

Definition record (e : event) (st : state) : state :=
  {| currentSize := currentSize st; limitReached := limitReached st;
     history := history st ++ [e] |}.

(** [limitReached = true] *)
Definition setLimit (st : state) : state :=
  {| currentSize := currentSize st; limitReached := true;
     history := history st ++ [LimitSet] |}.

(** [output += ...; currentSize += n], for a unit adding [text]. *)
Definition emit (k : unit_kind) (p text : jsstring) (n : Z) (st : state)
  : state :=
  {| currentSize := currentSize st + n; limitReached := limitReached st;
     history := history st ++ [Emit k p text (currentSize st + n)] |}.

(* ================================================================== *)
(** ** The tree walker *)
(* ================================================================== *)

Definition folderHeaderOf (relativePath : jsstring) : jsstring :=
  nl ++ lit "--- Folder: " ++ relativePath ++ lit " ---" ++ nl.

Definition fileHeaderOf (relativePath : jsstring) : jsstring :=
  nl ++ lit "--- File: " ++ relativePath ++ lit " ---" ++ nl.

Definition binaryNoteOf (fileHeader : jsstring) : jsstring :=
  fileHeader ++ lit "[BINARY FILE SKIPPED]" ++ nl.

(** How a call of the walker ends: it returns a text, or ([None]) an
    exception leaves it.  The two process-wide variables are what they
    are at that moment either way. *)
Definition completion := option jsstring.

Section Walker.

(** [process.cwd()] *)
Variable cwd : path.

(** The rule set: [ig p] is [ig.ignores(p)]. *)
Variable ig : jsstring -> bool.

Section Entries.

(** The recursive call [processDirectory(filePath, ig)] on an entry. *)
Variable self : path -> node -> state -> completion * state.

(** The loop [for (const file of files)] of [processDirectory], from
    the entries still to visit, the local [output] and the state. *)
Fixpoint entries (dirPath : path) (files : list (jsstring * node))
    (output : jsstring) (st : state) {struct files} : completion * state :=
  match files with
  | [] => (Some output, st)
  | (file, child) :: rest =>
    if limitReached st then (Some output, st)
    else
      let filePath := Path.join dirPath file in
      let relativePath := Path.relative cwd filePath in
      (* Skip dotfiles (except .gitignore itself) *)
      if startsWith (lit ".") file && negb (str_eqb file (lit ".gitignore"))
      then entries dirPath rest output st
      else if lstatFails child then entries dirPath rest output st
      (* Skip symlinks *)
      else if isSymbolicLink child then entries dirPath rest output st
      (* Check .gitignore rules *)
      else if ig relativePath then entries dirPath rest output st
      else
        match child with
        | Dir _ =>
            let folderHeader := folderHeaderOf relativePath in
            if currentSize st + len folderHeader >? MAX_SIZE
            then (Some output, setLimit st)
            else
              match self filePath child st with
              | (None, st1) => (None, st1)   (* the call threw *)
              | (Some folderOutput, st1) =>
                  if truthy folderOutput then
                    entries dirPath rest
                      (output ++ folderHeader ++ folderOutput)
                      (emit FolderHeader relativePath folderHeader
                         (byteLength folderHeader) st1)
                  else entries dirPath rest output st1
              end
        | File data =>
            let fileHeader := fileHeaderOf relativePath in
            let headerSize := byteLength fileHeader in
            (* Skip if header alone exceeds limit *)
            if currentSize st + headerSize >? MAX_SIZE
            then (Some output, setLimit st)
            else
              match data with
              | None => entries dirPath rest output st
              | Some buffer =>
                  (* Handle binary files *)
                  if isBinaryFile buffer (Path.toStr filePath) then
                    let note := binaryNoteOf fileHeader in
                    let noteSize := byteLength note in
                    if currentSize st + noteSize >? MAX_SIZE
                    then (Some output, setLimit st)
                    else
                      entries dirPath rest (output ++ note)
                        (emit BinaryNote relativePath note noteSize st)
                  else
                    (* Process text file *)
                    match toString buffer with
                    | None => (None, st)   (* no [try] around the call *)
                    | Some content =>
                        let contentSize := byteLength content in
                        let totalSize := headerSize + contentSize in
                        if currentSize st + totalSize >? MAX_SIZE
                        then (Some output, setLimit st)
                        else
                          entries dirPath rest
                            (output ++ fileHeader ++ content)
                            (emit FileBlock relativePath
                               (fileHeader ++ content) totalSize st)
                    end
              end
        | _ => entries dirPath rest output st
        end
  end.

End Entries.

(** [processDirectory(dirPath, ig)], on the node found at [dirPath].
    [readdirSync] throws on anything but a listable directory. *)
Fixpoint processDirectory (dirPath : path) (n : node) (st : state)
    {struct n} : completion * state :=
  match n with
  | Dir (Some files) =>
      entries processDirectory dirPath files [] (record (ReadDir dirPath) st)
  | _ => (Some [], record (ReadDir dirPath) st)
  end.

End Walker.

(* ================================================================== *)
(** ** The environment of a run *)
(* ================================================================== *)

(** What the process finds around it.  The walker reads the tree below
    the working directory ([tree]).  The two upward walks probe single
    paths above it, through [existsSync], [statSync] and
    [readFileSync]. *)
Record world := {
  cwd : path;                          (* process.cwd() *)
  existsSync : path -> bool;
  statSync : path -> option bool;      (* [.isDirectory()] of the stats;
                                          [None] when the call throws *)
  readFileSync : path -> option jsstring;
                                       (* the text, read as utf8;
                                          [None] when the call throws *)
  tree : node;                         (* what lies at [cwd] *)
  answer : jsstring;                   (* the line typed at the prompt *)
  clipboard : option jsstring;         (* [Some msg] when the write is
                                          rejected, with that message *)
  ignores : list jsstring -> jsstring -> bool
    (* the [ignore] package: the rule texts added so far, in order,
       and the path tested *)
}.

(* ================================================================== *)
(** ** The repository locator *)
(* ================================================================== *)

(** The loop of [isGitRepo], on the path [current].  The [try] block
    catches what [statSync] throws and the loop goes on. *)
Fixpoint isGitRepo (w : world) (dir : path) : option path :=
  match dir with
  | [] => None                  (* current === path.parse(current).root *)
  | _ :: parent =>
      let gitPath := Path.join dir (lit ".git") in
      if existsSync w gitPath
         && match statSync w gitPath with
            | Some isDirectory => isDirectory
            | None => false
            end
      then Some dir
      else isGitRepo w parent
  end.

(* ================================================================== *)
(** ** The rule loader *)
(* ================================================================== *)

(** The loop of [loadGitIgnoreRules], from [current] upward; [added]
    are the rule texts given to [ig.add] so far.  A path string is
    never empty, so the test [current &&] always passes.  At the
    filesystem root, [path.dirname] returns the root again: the loop
    can only be there with [current === rootDir], and leaves. *)
Fixpoint loadRulesFrom (w : world) (rootDir current : path)
    (added : list jsstring) : list jsstring :=
  if startsWith (Path.toStr rootDir) (Path.toStr current) then
    let gitignorePath := Path.join current (lit ".gitignore") in
    let added1 :=
      if existsSync w gitignorePath then
        match readFileSync w gitignorePath with
        | Some rules => added ++ [rules]
        | None => added
        end
      else added in
    (* Stop at git root if found *)
    if Path.eqb current rootDir then added1
    else
      match current with
      | [] => added1
      | _ :: parent => loadRulesFrom w rootDir parent added1
      end
  else added.

Definition loadGitIgnoreRules (w : world) (rootDir : path)
  : jsstring -> bool :=
  ignores w (loadRulesFrom w rootDir (cwd w) []).

(* ================================================================== *)
(** ** The entry point *)
(* ================================================================== *)

(** The lines the program prints; their wording is not modelled. *)
Inductive message :=
| NoRepositoryContinue       (* the question asked at the prompt *)
| OperationCancelled
| OutputTruncated
| CopiedToClipboard
| ClipboardFailed (err : jsstring)
| UnexpectedError.

(** What the process does to the outside, in order. *)
Inductive effect :=
| Question (m : message)       (* rl.question *)
| ConsoleLog (m : message)
| ConsoleError (m : message)
| ClipboardWrite (text : jsstring)
| Close.                       (* rl.close() *)

(** A run: its effects, the accumulator at the end, and the status the
    process exits with. *)
Record outcome := {
  effects : list effect;
  final : state;
  exitCode : Z
}.

Definition rootHeaderOf (name : jsstring) : jsstring :=
  lit "--- Root Directory: " ++ name ++ lit " ---" ++ nl.

(** [main], once past the repository check; [asked] are the effects so
    far. *)
Definition proceed (w : world) (gitRoot : option path) (asked : list effect)
  : outcome :=
  let rootDir := cwd w in
  let ig :=
    loadGitIgnoreRules w
      (match gitRoot with Some r => r | None => rootDir end) in
  let rootHeader := rootHeaderOf (Path.basename rootDir) in
  let st0 := emit RootHeader [] rootHeader (byteLength rootHeader) initial in
  match processDirectory (cwd w) ig rootDir (tree w) st0 with
  | (Some walked, st) =>
      let finalOutput := rootHeader ++ walked in
      {| effects :=
           asked ++ [ClipboardWrite finalOutput]
           ++ match clipboard w with
              | None =>
                  [ConsoleLog (if limitReached st then OutputTruncated
                               else CopiedToClipboard)]
              | Some err => [ConsoleError (ClipboardFailed err)]
              end
           ++ [Close];
         final := st;
         exitCode := 0 |}
  | (None, st) =>
      (* the exception of the walk rejects [main()]: the handler of
         [main().catch] reports it, closes and exits *)
      {| effects := asked ++ [ConsoleError UnexpectedError; Close];
         final := st;
         exitCode := 1 |}
  end.

Definition main (w : world) : outcome :=
  let rootDir := cwd w in
  let gitRoot := isGitRepo w rootDir in
  match gitRoot with
  | None =>
      let answer := answer w in
      if negb (str_eqb (toLowerCase answer) (lit "y")) then
        {| effects := [Question NoRepositoryContinue;
                       ConsoleLog OperationCancelled; Close];
           final := initial;
           exitCode := 0 |}
      else proceed w gitRoot [Question NoRepositoryContinue]
  | Some _ => proceed w gitRoot []
  end.

(** The text handed to the clipboard, if any. *)
Fixpoint delivered (l : list effect) : option jsstring :=
  match l with
  | [] => None
  | ClipboardWrite text :: _ => Some text
  | _ :: rest => delivered rest
  end.

(* ================================================================== *)
(** ** Vocabulary of the properties *)
(* ================================================================== *)

(** *** The locator *)

(** [dir] contains the marker: [dir/.git] exists and is a directory.
    A [statSync] that throws counts as no marker. *)
Definition hasMarker (w : world) (dir : path) : bool :=
  existsSync w (Path.join dir (lit ".git"))
  && match statSync w (Path.join dir (lit ".git")) with
     | Some isDirectory => isDirectory
     | None => false
     end.

(** [dir] and the directories above it, nearest first, the root last. *)
Fixpoint ancestors (dir : path) : list path :=
  match dir with
  | [] => [[]]
  | _ :: parent => dir :: ancestors parent
  end.

(** [d] is the topmost marked directory among [dir] and its ancestors. *)
Definition topmostMarked (w : world) (dir d : path) : Prop :=
  In d (ancestors dir) /\ hasMarker w d = true
  /\ forall d', In d' (ancestors d) -> d' <> d -> hasMarker w d' = false.

(** The locator returns the topmost marked ancestor, or nothing when
    no ancestor is marked. *)
Definition locatesTopmost (w : world) (dir : path) : Prop :=
  match isGitRepo w dir with
  | Some d => topmostMarked w dir d
  | None => forall d, In d (ancestors dir) -> hasMarker w d = false
  end.

(** *** Histories *)

Definition isEmit (e : event) : bool :=
  match e with Emit _ _ _ _ => true | _ => false end.

Definition isFolderEmit (e : event) : bool :=
  match e with Emit FolderHeader _ _ _ => true | _ => false end.

(** The events that follow the first [LimitSet]. *)
Fixpoint afterLimit (h : list event) : list event :=
  match h with
  | [] => []
  | LimitSet :: t => t
  | _ :: t => afterLimit t
  end.


(** The events a call has added to the history. *)
Definition eventsSince (st st' : state) : list event :=
  skipn (List.length (history st)) (history st').

(** The UTF-8 size of the text committed by a history. *)
Fixpoint committed (h : list event) : Z :=
  match h with
  | [] => 0
  | Emit _ _ text _ :: t => byteLength text + committed t
  | _ :: t => committed t
  end.

(** Every append leaves [currentSize] at the size of the text committed
    up to there, [size] being committed before [h]. *)
Fixpoint accounted (size : Z) (h : list event) : Prop :=
  match h with
  | [] => True
  | Emit _ _ text n :: t => n = size + byteLength text /\ accounted n t
  | _ :: t => accounted size t
  end.


(** The components of a relative path. *)
Fixpoint components (p : jsstring) : list jsstring :=
  match p with
  | [] => [[]]
  | c :: t =>
      if c =? slash then [] :: components t
      else match components t with
           | [] => [[c]]
           | x :: l => (c :: x) :: l
           end
  end.

(** [p] lies under a directory named [dir], at any depth. *)
Definition under (dir p : jsstring) : bool :=
  existsb (str_eqb dir) (removelast (components p)).

(** The absolute path [p] lies under a directory named [dir]. *)
Definition locatedUnder (dir : jsstring) (p : path) : bool :=
  existsb (str_eqb dir) (Path.dirname p).

(** *** Rule texts *)

(** A text cut at its newlines. *)
Fixpoint splitLines (t : jsstring) : list jsstring :=
  match t with
  | [] => [[]]
  | c :: rest =>
      if c =? 10 then [] :: splitLines rest
      else match splitLines rest with
           | [] => [[c]]
           | l :: ls => (c :: l) :: ls
           end
  end.

(** A line without the carriage return that ends it, if any. *)
Definition dropReturn (l : jsstring) : jsstring :=
  match rev l with
  | c :: before => if c =? 13 then rev before else l
  | [] => l
  end.

(** The lines of a rule text, separated by [\n] or [\r\n]. *)
Definition lines (t : jsstring) : list jsstring :=
  map dropReturn (splitLines t).

(** The rule text has the line [l]. *)
Definition hasLine (l t : jsstring) : bool := existsb (str_eqb l) (lines t).

(** The rule text has a negating line, one that starts with [!]. *)
Definition negates (t : jsstring) : bool :=
  existsb (startsWith (lit "!")) (lines t).

(** What the claim on [build/] needs of the [ignore] package, whose
    code is not in the repository: given rule texts of which one has
    the line [build/] and none has a negating line, the matcher ignores
    every path under a directory named [build]. *)
Definition honoursBuildPattern
    (matcher : list jsstring -> jsstring -> bool) : Prop :=
  forall added,
    (exists t, In t added /\ hasLine (lit "build/") t = true) ->
    (forall t, In t added -> negates t = false) ->
    forall p, under (lit "build") p = true -> matcher added p = true.

(** *** One thing the walker does to the accumulator

    Every change the walker makes to the state is one of these, for a
    rule set [ig]. *)
Inductive step (ig : jsstring -> bool) : state -> state -> Prop :=
| step_readdir st dirPath :
    limitReached st = false ->
    step ig st (record (ReadDir dirPath) st)
| step_limit st :
    limitReached st = false ->
    step ig st (setLimit st)
| step_unit st k p text :
    limitReached st = false ->
    ig p = false ->
    k = BinaryNote \/ k = FileBlock ->
    currentSize st + byteLength text <= MAX_SIZE ->
    step ig st (emit k p text (byteLength text) st)
| step_folder st p :
    ig p = false ->
    step ig st
      (emit FolderHeader p (folderHeaderOf p) (byteLength (folderHeaderOf p))
         st).

(** Any number of steps, one after the other. *)
Inductive steps (ig : jsstring -> bool) : state -> state -> Prop :=
| steps_refl st : steps ig st st
| steps_next st st1 st2 :
    steps ig st st1 -> step ig st1 st2 -> steps ig st st2.

(** *** The output as the text of the units

    [renders new s]: the events [new] of a loop account for the text [s]
    it has appended to its output.  A folder whose subtree left text
    [sub] adds its header in front of it; a folder whose subtree left
    none adds nothing. *)
Inductive renders : list event -> jsstring -> Prop :=
| renders_nil : renders [] []
| renders_quiet e new s :
    isEmit e = false -> renders new s -> renders (e :: new) s
| renders_unit k p text n new s :
    k = BinaryNote \/ k = FileBlock ->
    (exists rest, text = nl ++ rest) ->
    renders new s ->
    renders (Emit k p text n :: new) (text ++ s)
| renders_folder inner sub p n new s :
    renders inner sub -> sub <> [] -> renders new s ->
    renders (inner ++ Emit FolderHeader p (folderHeaderOf p) n :: new)
      (folderHeaderOf p ++ sub ++ s)
| renders_empty inner new s :
    renders inner [] -> renders new s -> renders (inner ++ new) s.

(** The sizes [currentSize] takes after each append of a history. *)
Fixpoint sizesOf (h : list event) : list Z :=
  match h with
  | [] => []
  | Emit _ _ _ n :: t => n :: sizesOf t
  | _ :: t => sizesOf t
  end.

(** Every unit of a history adds at most [n] bytes. *)
Definition unitsWithin (n : Z) (h : list event) : Prop :=
  Forall (fun e => match e with
                   | Emit _ _ text _ => byteLength text <= n
                   | _ => True
                   end) h.

(** *** Entries that are visited

    The entry [file] of [dirPath] passes the filters of the loop: it is
    no dotfile (or is [.gitignore]), [lstatSync] succeeds on it, it is
    no symbolic link, and the rules do not ignore it. *)
Definition eligible (cwd : path) (ig : jsstring -> bool) (dirPath : path)
    (file : jsstring) (child : node) : bool :=
  negb (startsWith (lit ".") file && negb (str_eqb file (lit ".gitignore")))
  && negb (lstatFails child)
  && negb (isSymbolicLink child)
  && negb (ig (Path.relative cwd (Path.join dirPath file))).

(** *** Text bytes *)

(** Printable ASCII, and the three control characters of text. *)
Definition isTextByte (b : Z) : bool :=
  ((32 <=? b) && (b <=? 126)) || (b =? 9) || (b =? 10) || (b =? 13).

(** The sample sizes of the detector. *)
Definition sampleSizes : list Z := map Z.of_nat (seq 0 (Z.to_nat 8001)).

(** Induction on the tree: a directory from its entries. *)
Fixpoint node_nested_ind (P : node -> Prop)
    (HDir : forall files, Forall (fun e => P (snd e)) files ->
                          P (Dir (Some files)))
    (HNone : P (Dir None)) (HFile : forall data, P (File data))
    (HSym : P Symlink) (HOther : P Other) (HNoStat : P NoStat)
    (n : node) {struct n} : P n :=
  match n with
  | Dir (Some files) =>
      HDir files
        ((fix all (l : list (jsstring * node)) : Forall (fun e => P (snd e)) l :=
            match l with
            | [] => Forall_nil _
            | e :: t =>
                Forall_cons e
                  (node_nested_ind P HDir HNone HFile HSym HOther HNoStat
                     (snd e))
                  (all t)
            end) files)
  | Dir None => HNone
  | File data => HFile data
  | Symlink => HSym
  | Other => HOther
  | NoStat => HNoStat
  end.

(* ================================================================== *)
(** ** Concrete environments *)
(* ================================================================== *)

(** Two repositories, one inside the other: [/a/.git] and [/a/b/.git]
    are directories, and the process runs in [/a/b]. *)
Definition nestedRepos : world :=
  {| cwd := [lit "b"; lit "a"];
     existsSync := fun p =>
       Path.eqb p [lit ".git"; lit "a"]
       || Path.eqb p [lit ".git"; lit "b"; lit "a"];
     statSync := fun _ => Some true;
     readFileSync := fun _ => None;
     tree := Dir (Some []);
     answer := [];
     clipboard := None;
     ignores := fun _ _ => false |}.

(** No repository anywhere, and the operator answers [n]. *)
Definition declined : world :=
  {| cwd := [lit "proj"; lit "home"];
     existsSync := fun _ => false;
     statSync := fun _ => None;
     readFileSync := fun _ => None;
     tree := Dir (Some [(lit "a.txt", File (Some (lit "hello")))]);
     answer := lit "n";
     clipboard := None;
     ignores := fun _ _ => false |}.

(** The rule set that ignores nothing. *)
Definition noRules : jsstring -> bool := fun _ => false.

(** A run in [/r] with no repository, confirmed at the prompt, and no
    ignore rule. *)
Definition plainWorld (t : node) : world :=
  {| cwd := [lit "r"];
     existsSync := fun _ => false;
     statSync := fun _ => None;
     readFileSync := fun _ => None;
     tree := t;
     answer := lit "y";
     clipboard := None;
     ignores := fun _ => noRules |}.

(** [a/b/f.txt], two folders deep. *)
Definition deepTree (data : buffer) : node :=
  Dir (Some [(lit "a",
    Dir (Some [(lit "b",
      Dir (Some [(lit "f.txt", File (Some data))]))]))]).


(** [n] bytes of the letter [x]. *)
Definition xs (n : Z) : buffer := repeat 120 (Z.to_nat n).

(** [n] text files [f000.txt], [f001.txt], ... holding [data]. *)
Definition digits3 (i : nat) : jsstring :=
  [48 + Z.of_nat (i / 100); 48 + Z.of_nat ((i / 10) mod 10);
   48 + Z.of_nat (i mod 10)].

Definition textName (i : nat) : jsstring :=
  lit "f" ++ digits3 i ++ lit ".txt".

Definition textFiles (n : nat) (data : buffer) : list (jsstring * node) :=
  map (fun name => (name, File (Some data))) (map textName (seq 0 n)).

(** A name of 255 letters, the longest a directory entry can have. *)
Definition longName : jsstring := repeat 120 255.

(** [inner], inside [depth] folders named [longName]. *)
Fixpoint nest (depth : nat) (inner : list (jsstring * node))
  : list (jsstring * node) :=
  match depth with
  | O => inner
  | S d => [(longName, Dir (Some (nest d inner)))]
  end.

(** 174 text files, then fifteen nested folders around the file [f]. *)
Definition crowdedTree (data bottom : buffer) : node :=
  Dir (Some (textFiles 174 data
             ++ nest 15 [(lit "f", File (Some bottom))])).

(** A traversal state thirty bytes below the budget. *)
Definition nearCap : state :=
  {| currentSize := MAX_SIZE - 30; limitReached := false; history := [] |}.


(** A matcher for rule texts made of directory patterns [name/] and
    their negations [!name/], as the [ignore] package treats them.  A
    rule line names a directory or says nothing of it; the last line
    that names it decides; and a path is ignored when one of the
    directories above it is, the package never looking below an ignored
    directory.  The path itself, given without a trailing slash, is
    taken for a file, which a directory pattern does not match. *)
Definition ruleOn (line name : jsstring) : option bool :=
  if str_eqb line (name ++ lit "/") then Some true
  else if str_eqb line (lit "!" ++ name ++ lit "/") then Some false
  else None.

Definition dirIgnored (ruleLines : list jsstring) (name : jsstring) : bool :=
  fold_left
    (fun ignored line =>
       match ruleOn line name with Some b => b | None => ignored end)
    ruleLines false.

Definition dirMatcher (added : list jsstring) (p : jsstring) : bool :=
  existsb (dirIgnored (flat_map lines added)) (removelast (components p)).

(** [/r] holds [.gitignore] with the line [build/], the file [a.txt],
    and a directory [build] with a file and a folder in it. *)
Definition buildTree : node :=
  Dir (Some [(lit ".gitignore", File (Some (lit "build/")));
             (lit "a.txt", File (Some (lit "hello")));
             (lit "build",
              Dir (Some [(lit "out.js", File (Some (lit "x = 1")));
                         (lit "deep",
                          Dir (Some [(lit "y.txt",
                                      File (Some (lit "secret")))]))]))]).

Definition buildIgnored : world :=
  {| cwd := [lit "r"];
     existsSync := fun p => Path.eqb p [lit ".gitignore"; lit "r"];
     statSync := fun _ => None;
     readFileSync := fun p =>
       if Path.eqb p [lit ".gitignore"; lit "r"] then Some (lit "build/")
       else None;
     tree := buildTree;
     answer := lit "y";
     clipboard := None;
     ignores := dirMatcher |}.

(** The process runs in [/repo/build], inside the repository [/repo]
    whose [.gitignore] holds the line [build/]; the working directory
    holds [out.js] and [deep/y.txt]. *)
Definition insideBuild : world :=
  {| cwd := [lit "build"; lit "repo"];
     existsSync := fun p =>
       Path.eqb p [lit ".git"; lit "repo"]
       || Path.eqb p [lit ".gitignore"; lit "repo"];
     statSync := fun _ => Some true;
     readFileSync := fun p =>
       if Path.eqb p [lit ".gitignore"; lit "repo"] then Some (lit "build/")
       else None;
     tree :=
       Dir (Some [(lit "out.js", File (Some (lit "x = 1")));
                  (lit "deep",
                   Dir (Some [(lit "y.txt", File (Some (lit "secret")))]))]);
     answer := [];
     clipboard := None;
     ignores := dirMatcher |}.

(** [/r] holds a directory [build] with one file, and a [.gitignore]
    whose second line takes back the first. *)
Definition buildReincluded : world :=
  {| cwd := [lit "r"];
     existsSync := fun p => Path.eqb p [lit ".gitignore"; lit "r"];
     statSync := fun _ => None;
     readFileSync := fun p =>
       if Path.eqb p [lit ".gitignore"; lit "r"]
       then Some (lit "build/" ++ nl ++ lit "!build/")
       else None;
     tree :=
       Dir (Some [(lit "build",
                   Dir (Some [(lit "out.js", File (Some (lit "x = 1")))]))]);
     answer := lit "y";
     clipboard := None;
     ignores := dirMatcher |}.

(** The entries of a folder with one text file. *)
Definition oneFolder : list (jsstring * node) :=
  [(lit "c.txt", File (Some (lit "hello world")))].

(** A folder holding only what the walker passes over. *)
Definition hollowFolder : list (jsstring * node) :=
  [(lit ".cache", File (Some (lit "tmp")));
   (lit "link", Symlink);
   (lit "empty", Dir (Some []))].

(* ================================================================== *)
(** ** Vocabulary of further properties *)
(* ================================================================== *)

(** *** The text of a tree with no budget

    What the walk of a directory would return if nothing ever failed to
    fit: the blocks of the eligible entries in listing order, a folder
    with its header in front when its own text is not empty. *)
Section Rendering.

Variable cwd : path.
Variable ig : jsstring -> bool.

Section RenderEntries.

Variable self : path -> node -> jsstring.

Definition renderEntry (dirPath : path) (file : jsstring) (child : node)
  : jsstring :=
  let filePath := Path.join dirPath file in
  let relativePath := Path.relative cwd filePath in
  if eligible cwd ig dirPath file child then
    match child with
    | Dir _ =>
        let sub := self filePath child in
        if truthy sub then folderHeaderOf relativePath ++ sub else []
    | File (Some buffer) =>
        if isBinaryFile buffer (Path.toStr filePath)
        then binaryNoteOf (fileHeaderOf relativePath)
        else fileHeaderOf relativePath ++ decodeUtf8 buffer
    | _ => []
    end
  else [].

Fixpoint renderEntries (dirPath : path) (files : list (jsstring * node))
  : jsstring :=
  match files with
  | [] => []
  | (file, child) :: rest =>
      renderEntry dirPath file child ++ renderEntries dirPath rest
  end.

End RenderEntries.

Fixpoint render (dirPath : path) (n : node) {struct n} : jsstring :=
  match n with
  | Dir (Some files) => renderEntries render dirPath files
  | _ => []
  end.

End Rendering.

(** The text a walk of [n] returns is a beginning of its full text, and
    all of it when the flag is unset before and after. *)
Definition beginsFullText (cwd : path) (ig : jsstring -> bool) (n : node)
  : Prop :=
  forall dirPath st out,
    fst (processDirectory cwd ig dirPath n st) = Some out ->
    (exists rest, render cwd ig dirPath n = out ++ rest)
    /\ (limitReached st = false ->
        limitReached (snd (processDirectory cwd ig dirPath n st)) = false ->
        out = render cwd ig dirPath n).

(** *** A tree without the entries the loop passes over *)
Section Pruning.

Variable cwd : path.
Variable ig : jsstring -> bool.

Section PruneEntries.

Variable self : path -> node -> node.

Fixpoint pruneEntries (dirPath : path) (files : list (jsstring * node))
  : list (jsstring * node) :=
  match files with
  | [] => []
  | (file, child) :: rest =>
      if eligible cwd ig dirPath file child
      then (file, self (Path.join dirPath file) child)
           :: pruneEntries dirPath rest
      else pruneEntries dirPath rest
  end.

End PruneEntries.

Fixpoint prune (dirPath : path) (n : node) {struct n} : node :=
  match n with
  | Dir (Some files) => Dir (Some (pruneEntries prune dirPath files))
  | _ => n
  end.

End Pruning.

(** *** The paths of a tree *)

(** The relative paths of the entries of a tree, at any depth. *)
Section Paths.

Variable cwd : path.

Section EntryPaths.

Variable self : path -> node -> list jsstring.

Fixpoint entryPaths (dirPath : path) (files : list (jsstring * node))
  : list jsstring :=
  match files with
  | [] => []
  | (file, child) :: rest =>
      Path.relative cwd (Path.join dirPath file)
      :: self (Path.join dirPath file) child ++ entryPaths dirPath rest
  end.

End EntryPaths.

Fixpoint pathsBelow (dirPath : path) (n : node) {struct n}
  : list jsstring :=
  match n with
  | Dir (Some files) => entryPaths pathsBelow dirPath files
  | _ => []
  end.

End Paths.

(** The same surroundings with another tree at the working
    directory. *)
Definition withTree (w : world) (t : node) : world :=
  {| cwd := cwd w;
     existsSync := existsSync w;
     statSync := statSync w;
     readFileSync := readFileSync w;
     tree := t;
     answer := answer w;
     clipboard := clipboard w;
     ignores := ignores w |}.

(** *** Trees that can be decoded *)

(** [P] holds of every entry of a listing. *)
Fixpoint allEntries (P : node -> Prop) (files : list (jsstring * node))
  : Prop :=
  match files with
  | [] => True
  | (_, child) :: rest => P child /\ allEntries P rest
  end.

(** Every readable file of the tree, at any depth, is short enough to
    be decoded: [buffer.toString] throws on none. *)
Fixpoint decodable (n : node) {struct n} : Prop :=
  match n with
  | Dir (Some files) => allEntries decodable files
  | File (Some buffer) => toString buffer <> None
  | _ => True
  end.

(** *** Folder headers in a history *)

(** The UTF-8 size of the folder headers a history has appended. *)
Fixpoint folderBytes (h : list event) : Z :=
  match h with
  | [] => 0
  | Emit FolderHeader _ text _ :: t => byteLength text + folderBytes t
  | _ :: t => folderBytes t
  end.

(** *** The levels of the rule loader *)

(** The directories from [below ++ root] up to [root], nearest first. *)
Fixpoint levels (below root : path) : list path :=
  match below with
  | [] => [root]
  | _ :: above => (below ++ root) :: levels above root
  end.

(** The rule text found in [dir]: that of [dir/.gitignore] when it
    exists and can be read. *)
Definition ruleText (w : world) (dir : path) : list jsstring :=
  if existsSync w (Path.join dir (lit ".gitignore")) then
    match readFileSync w (Path.join dir (lit ".gitignore")) with
    | Some rules => [rules]
    | None => []
    end
  else [].

(** The directory the rules are loaded against: [gitRoot || rootDir]. *)
Definition effectiveRoot (w : world) : path :=
  match isGitRepo w (cwd w) with Some r => r | None => cwd w end.

(** *** Further environments *)

(** The process runs in [/repo/src/lib]; [/repo] is a repository.
    [/repo/.gitignore] and [/repo/src/lib/.gitignore] hold rules,
    [/repo/src/.gitignore] cannot be read, and [/.gitignore], above the
    repository, is never looked at.  The clipboard rejects the write. *)
Definition libWorld : world :=
  {| cwd := [lit "lib"; lit "src"; lit "repo"];
     existsSync := fun p =>
       Path.eqb p [lit ".git"; lit "repo"]
       || Path.eqb p [lit ".gitignore"; lit "repo"]
       || Path.eqb p [lit ".gitignore"; lit "src"; lit "repo"]
       || Path.eqb p [lit ".gitignore"; lit "lib"; lit "src"; lit "repo"]
       || Path.eqb p [lit ".gitignore"];
     statSync := fun _ => Some true;
     readFileSync := fun p =>
       if Path.eqb p [lit ".gitignore"; lit "repo"] then Some (lit "dist/")
       else if Path.eqb p [lit ".gitignore"; lit "lib"; lit "src"; lit "repo"]
       then Some (lit "*.log")
       else if Path.eqb p [lit ".gitignore"] then Some (lit "*")
       else None;
     tree := Dir (Some [(lit "a.txt", File (Some (lit "hello")))]);
     answer := lit "n";
     clipboard := Some (lit "no display");
     ignores := fun _ => noRules |}.

(** A directory with a dotfile, a link, a socket, an entry that cannot
    be examined, and two folders of text. *)
Definition mixedTree : node :=
  Dir (Some [(lit ".env", File (Some (lit "KEY=1")));
             (lit "a.txt", File (Some (lit "hello")));
             (lit "link", Symlink);
             (lit "gone", NoStat);
             (lit "sock", Other);
             (lit "sub",
              Dir (Some [(lit ".hidden", Dir (Some oneFolder));
                         (lit "c.txt", File (Some (lit "world")))]));
             (lit "logo.png", File (Some (lit "hello")))]).

(** 9000 bytes: 8000 letters, then control characters. *)
Definition lateControls : buffer := xs 8000 ++ repeat 1 1000.

(* ================================================================== *)
(** ** Proof steps *)
(* ================================================================== *)

(** Splits the hypothesis that an entry is eligible and rewrites the
    four filters of the loop with it. *)
Ltac pass_filters H :=
  unfold eligible in H;
  repeat (apply andb_prop in H; destruct H as [H ?]);
  repeat match goal with
         | E : negb _ = true |- _ => apply negb_true_iff in E; rewrite E
         end.

(** Decides a budget check on a state built from [initial]. *)
Ltac side Hsize :=
  cbn [currentSize limitReached emit record setLimit initial];
  rewrite ?Hsize; vm_compute; reflexivity.

(** Decides a budget check on a state known by its counter and flag. *)
Ltac decide_with Hlim Hcur Hc Hb :=
  cbn [currentSize limitReached emit record setLimit initial];
  rewrite ?Hlim, ?Hcur; cbn [currentSize limitReached emit record initial];
  rewrite ?Hc, ?Hb; vm_compute; reflexivity.

(* ================================================================== *)
(** * Properties *)
(* ================================================================== *)
(* ================================================================== *)
(** ** Strings *)
(* ================================================================== *)

Lemma str_eqb_eq (a b : jsstring) : str_eqb a b = true <-> a = b.
Proof.
  revert b; induction a as [|x a IH]; intros [|y b]; simpl;
    try (split; [discriminate | congruence]); try tauto.
  rewrite andb_true_iff, Z.eqb_eq, IH. split.
  - intros [-> ->]; reflexivity.
  - intros H; injection H; auto.
Qed.

Lemma str_eqb_refl (a : jsstring) : str_eqb a a = true.
Proof. apply str_eqb_eq; reflexivity. Qed.

Lemma byteLength_nonneg (s : jsstring) : 0 <= byteLength s.
Proof.
  assert (H : forall n (t : jsstring), (List.length t <= n)%nat ->
                                       0 <= byteLength t).
  { induction n as [|n IH]; intros [|c t] Hn;
      cbn [byteLength List.length] in *; try lia.
    assert (0 <= byteLength t) by (apply IH; lia).
    destruct (c <? 128); [lia|]. destruct (c <? 2048); [lia|].
    destruct (isHighSurrogate c); [|lia].
    destruct t as [|d t']; [lia|].
    destruct (isLowSurrogate d); [|lia].
    assert (0 <= byteLength t') by (apply IH; cbn [List.length] in Hn; lia).
    lia. }
  apply (H (List.length s)); lia.
Qed.

(** The UTF-8 size of a concatenation is the sum of the sizes when the
    second string does not start with a low surrogate. *)
Lemma byteLength_app (a b : jsstring) :
  match b with d :: _ => isLowSurrogate d = false | [] => True end ->
  byteLength (a ++ b) = byteLength a + byteLength b.
Proof.
  intros Hb.
  assert (H : forall n (t : jsstring), (List.length t <= n)%nat ->
            byteLength (t ++ b) = byteLength t + byteLength b).
  { induction n as [|n IH]; intros [|c t] Hn; cbn [List.length] in Hn;
      try lia; try reflexivity.
    change ((c :: t) ++ b) with (c :: (t ++ b)).
    cbn [byteLength].
    assert (Ht : byteLength (t ++ b) = byteLength t + byteLength b)
      by (apply IH; lia).
    destruct (c <? 128); [lia|]. destruct (c <? 2048); [lia|].
    destruct (isHighSurrogate c); [|lia].
    destruct t as [|d t'].
    - cbn [app] in *. destruct b as [|d b']; [cbn [byteLength]; lia|].
      rewrite Hb. lia.
    - change ((d :: t') ++ b) with (d :: (t' ++ b)) in *. cbv iota.
      destruct (isLowSurrogate d); [|lia].
      rewrite (IH t') by (cbn [List.length] in Hn; lia). lia. }
  apply (H (List.length a)); lia.
Qed.

Lemma byteLength_app_nl (a b : jsstring) :
  byteLength (a ++ nl ++ b) = byteLength a + 1 + byteLength b.
Proof.
  rewrite byteLength_app by reflexivity.
  change (nl ++ b) with (10 :: b). cbn [byteLength].
  change (10 <? 128) with true. cbv iota. lia.
Qed.

(** A string that ends with a newline can be followed by anything. *)
Lemma byteLength_after_nl (a b : jsstring) :
  byteLength ((a ++ nl) ++ b) = byteLength (a ++ nl) + byteLength b.
Proof.
  rewrite <- app_assoc, byteLength_app_nl.
  rewrite <- (app_nil_r (a ++ nl)), <- app_assoc, byteLength_app_nl.
  cbn [byteLength]. lia.
Qed.

Lemma folderHeader_shape (p : jsstring) :
  exists body, folderHeaderOf p = nl ++ body ++ nl.
Proof.
  exists (lit "--- Folder: " ++ p ++ lit " ---").
  unfold folderHeaderOf. rewrite <- !app_assoc. reflexivity.
Qed.

Lemma fileHeader_shape (p : jsstring) :
  exists body, fileHeaderOf p = nl ++ body ++ nl.
Proof.
  exists (lit "--- File: " ++ p ++ lit " ---").
  unfold fileHeaderOf. rewrite <- !app_assoc. reflexivity.
Qed.

(** The size of a file block is the size of its header plus the size
    of its content. *)
Lemma byteLength_fileBlock (p content : jsstring) :
  byteLength (fileHeaderOf p ++ content)
  = byteLength (fileHeaderOf p) + byteLength content.
Proof.
  destruct (fileHeader_shape p) as [body ->].
  rewrite (app_assoc nl body nl). apply byteLength_after_nl.
Qed.

Lemma byteLength_folderBlock (p sub : jsstring) :
  byteLength (folderHeaderOf p ++ sub)
  = byteLength (folderHeaderOf p) + byteLength sub.
Proof.
  destruct (folderHeader_shape p) as [body ->].
  rewrite (app_assoc nl body nl). apply byteLength_after_nl.
Qed.

(** ASCII text is its own decoding, one byte for each code unit. *)
Lemma decode_ascii (l : buffer) :
  Forall (fun b => b <= 127) l -> decodeUtf8 l = l.
Proof.
  unfold decodeUtf8. induction 1 as [|b l Hb _ IH]; [reflexivity|].
  cbn [decode]. unfold decode_byte. cbn [needed idle Z.eqb].
  unfold lead. destruct (Z.leb_spec b 127); [|lia].
  simpl. f_equal. exact IH.
Qed.

(** [buffer.toString] returns the decoded text of a buffer that is not
    too long, and throws otherwise. *)
Lemma toString_fits (b : buffer) :
  len b <= maxStringLength -> toString b = Some (decodeUtf8 b).
Proof.
  intros Hfit. unfold toString.
  destruct (Z.gtb_spec (len b) maxStringLength); [lia | reflexivity].
Qed.

Lemma toString_Some (b : buffer) (s : jsstring) :
  toString b = Some s -> s = decodeUtf8 b /\ len b <= maxStringLength.
Proof.
  unfold toString.
  destruct (Z.gtb_spec (len b) maxStringLength) as [Hgt|Hle];
    [discriminate|].
  intros E; injection E as <-. split; [reflexivity | lia].
Qed.

Lemma toString_throws (b : buffer) :
  len b > maxStringLength -> toString b = None.
Proof.
  intros Hlong. unfold toString.
  destruct (Z.gtb_spec (len b) maxStringLength); [reflexivity | lia].
Qed.

(** A decoded text has no more code units than the buffer has bytes,
    but for the one it owes to a sequence left unfinished. *)
Lemma decode_length (bytes : buffer) :
  forall d,
    len (decode d bytes)
    <= len bytes + (if needed d =? 0 then 0 else 1).
Proof.
  assert (Hlead : forall b,
            len (fst (lead b))
            + (if needed (snd (lead b)) =? 0 then 0 else 1) <= 1).
  { intros b. unfold lead.
    destruct (b <=? 127); [vm_compute; discriminate|].
    destruct ((194 <=? b) && (b <=? 223)); [vm_compute; discriminate|].
    destruct ((224 <=? b) && (b <=? 239)); [vm_compute; discriminate|].
    destruct ((240 <=? b) && (b <=? 244)); vm_compute; discriminate. }
  unfold len in *.
  induction bytes as [|b rest IH]; intros d; cbn [decode List.length].
  - destruct (needed d =? 0); cbn [List.length]; lia.
  - unfold decode_byte.
    destruct (needed d =? 0) eqn:Hidle.
    + specialize (Hlead b). destruct (lead b) as [out d'].
      cbn [fst snd] in Hlead. specialize (IH d').
      rewrite length_app. lia.
    + destruct ((lower d <=? b) && (b <=? upper d)).
      * cbv zeta. destruct (needed d =? 1) eqn:Hlast.
        -- specialize (IH idle). cbn [needed idle] in IH.
           change (0 =? 0) with true in IH. cbv iota in IH.
           rewrite length_app.
           assert (Z.of_nat (List.length
                     (utf16 (Z.lor (Z.shiftl (codepoint d) 6)
                                   (Z.land b 63)))) <= 2)
             by (unfold utf16; destruct (_ <? 65536); cbn; lia).
           lia.
        -- match goal with
           | |- context [decode ?dd rest] => specialize (IH dd)
           end.
           cbn [app needed] in *.
           destruct (needed d - 1 =? 0); lia.
      * specialize (Hlead b). destruct (lead b) as [out d'].
        cbn [fst snd] in Hlead. specialize (IH d').
        cbn [app List.length]. rewrite length_app. lia.
Qed.

(** So a text [buffer.toString] returns is one the platform can hold,
    and a buffer whose text it could not hold makes it throw. *)
Lemma toString_length (b : buffer) (s : jsstring) :
  toString b = Some s -> len s <= maxStringLength.
Proof.
  intros H. apply toString_Some in H. destruct H as [-> Hfit].
  pose proof (decode_length b idle) as Hlen.
  cbn [needed idle] in Hlen. change (0 =? 0) with true in Hlen.
  cbv iota in Hlen. unfold decodeUtf8. lia.
Qed.

Lemma toString_too_long (b : buffer) :
  len (decodeUtf8 b) > maxStringLength -> toString b = None.
Proof.
  intros H. destruct (toString b) as [s|] eqn:Hs; [|reflexivity].
  pose proof (toString_length b s Hs) as Hlen.
  apply toString_Some in Hs. destruct Hs as [-> _]. lia.
Qed.

Lemma byteLength_ascii (l : jsstring) :
  Forall (fun c => c < 128) l -> byteLength l = len l.
Proof.
  unfold len. induction 1 as [|c l Hc _ IH]; [reflexivity|].
  cbn [byteLength]. destruct (Z.ltb_spec c 128); [|lia].
  rewrite IH. cbn [List.length]. lia.
Qed.

(** Only ["y"] and ["Y"] are lower-cased to ["y"]. *)
Lemma toLowerCase_y (s : jsstring) :
  toLowerCase s = lit "y" -> s = lit "y" \/ s = lit "Y".
Proof.
  unfold toLowerCase. destruct s as [|c s]; [discriminate|].
  assert (Hne : forall x, lowerUnit x <> []).
  { intros x. unfold lowerUnit.
    repeat match goal with |- context [if ?b then _ else _] => destruct b end;
      discriminate. }
  cbn [flat_map]. intros H.
  destruct s as [|c' s].
  - cbn [flat_map] in H. rewrite app_nil_r in H.
    unfold lowerUnit in H.
    destruct (Z.leb_spec 65 c), (Z.leb_spec c 90); cbn [andb] in H;
      try (injection H; intros; right; simpl; f_equal; lia);
      destruct (Z.eqb_spec c 8490); try discriminate;
      destruct (Z.eqb_spec c 304); try discriminate;
      injection H; intros; left; simpl; f_equal; lia.
  - exfalso. cbn [flat_map] in H.
    destruct (lowerUnit c) as [|u us] eqn:Hu; [exact (Hne c Hu)|].
    destruct (lowerUnit c') as [|v vs] eqn:Hv; [exact (Hne c' Hv)|].
    simpl in H. destruct us; simpl in H; discriminate.
Qed.

(* ================================================================== *)
(** ** The binary detector *)
(* ================================================================== *)

Lemma includes_In (b : buffer) (v : Z) : In v b -> includes b v = true.
Proof.
  intros H. unfold includes. apply existsb_exists.
  exists v. split; [exact H | apply Z.eqb_refl].
Qed.

Lemma includes_text (b : buffer) :
  Forall (fun x => isTextByte x = true) b -> includes b 0 = false.
Proof.
  unfold includes. induction 1 as [|x b Hx _ IH]; [reflexivity|].
  cbn [existsb]. rewrite IH, orb_false_r.
  destruct (Z.eqb_spec 0 x) as [<-|]; [discriminate Hx | reflexivity].
Qed.

Lemma countByte_text (n x : Z) : isTextByte x = true -> countByte n x = n.
Proof.
  unfold isTextByte, countByte. intros H.
  destruct (Z.ltb_spec x 32); [|reflexivity].
  destruct (Z.leb_spec 32 x); [lia|]. cbn [andb orb] in H.
  destruct (x =? 9); [reflexivity|].
  destruct (x =? 10); [reflexivity|].
  destruct (x =? 13); [reflexivity | discriminate H].
Qed.

Lemma count_text (l : buffer) (n : Z) :
  Forall (fun x => isTextByte x = true) l -> fold_left countByte l n = n.
Proof.
  intros H; revert n. induction H as [|x l Hx _ IH]; intros n;
    [reflexivity|].
  cbn [fold_left]. rewrite (countByte_text n x Hx). apply IH.
Qed.

(** Zero control characters out of any sample, the empty one included
    (where the quotient is NaN), are not above 0.3. *)
Lemma zero_ratio_samples :
  forallb (fun s => negb (PrimFloat.ltb three_tenths
                            (PrimFloat.div (number 0) (number s))))
    sampleSizes = true.
Proof. vm_compute. reflexivity. Qed.

Lemma zero_ratio (s : Z) :
  0 <= s <= 8000 ->
  PrimFloat.ltb three_tenths (PrimFloat.div (number 0) (number s)) = false.
Proof.
  intros Hs.
  pose proof (proj1 (forallb_forall _ _) zero_ratio_samples s) as H.
  apply negb_true_iff, H. unfold sampleSizes.
  apply in_map_iff. exists (Z.to_nat s). split; [lia|].
  apply in_seq. lia.
Qed.

Lemma Forall_firstn_text {A} (P : A -> Prop) (n : nat) (l : list A) :
  Forall P l -> Forall P (firstn n l).
Proof.
  intros H; revert n. induction H as [|x l Hx _ IH]; intros [|n]; simpl;
    constructor; auto.
Qed.

Lemma sampleSize_range (b : buffer) : 0 <= Z.min (len b) 8000 <= 8000.
Proof. unfold len. lia. Qed.

(** Text bytes under a path whose extension is not listed: text. *)
Lemma isBinaryFile_text (b : buffer) (filePath : jsstring) :
  has binaryExts (toLowerCase (extname filePath)) = false ->
  Forall (fun x => isTextByte x = true) b ->
  isBinaryFile b filePath = false.
Proof.
  intros Hext Htext. unfold isBinaryFile.
  rewrite Hext, (includes_text b Htext).
  rewrite count_text by (apply Forall_firstn_text; exact Htext).
  apply zero_ratio, sampleSize_range.
Qed.

(** C5.  The binary detector: (a) a buffer that contains a null byte is
    binary, whatever its length and path; (b) a buffer of printable
    ASCII text (tab, line feed and carriage return included) is text
    whenever the lower-cased extension of the path is not in the
    denylist; (c) a path whose extension is [.png] is binary whatever
    the buffer holds, the extension being looked at first. *)
Theorem isBinaryFile_classification (b : buffer) (filePath : jsstring) :
  (In 0 b -> isBinaryFile b filePath = true)
  /\ (Forall (fun x => isTextByte x = true) b ->
      has binaryExts (toLowerCase (extname filePath)) = false ->
      isBinaryFile b filePath = false)
  /\ (extname filePath = lit ".png" -> isBinaryFile b filePath = true).
Proof.
  split; [|split].
  - intros H0. unfold isBinaryFile.
    destruct (has binaryExts _); [reflexivity|].
    rewrite (includes_In b 0 H0). reflexivity.
  - intros Htext Hext. apply isBinaryFile_text; assumption.
  - intros Hpng. unfold isBinaryFile. rewrite Hpng. reflexivity.
Qed.

(** The three cases of C5 at concrete files: ten bytes with a null byte
    in [notes.txt], the text [hello] in [a.txt], and the same text in
    [logo.png]. *)
Lemma isBinaryFile_classification_witness :
  isBinaryFile [104; 101; 108; 108; 111; 0; 119; 111; 114; 108]
    (lit "/home/notes.txt") = true
  /\ isBinaryFile (lit "hello") (lit "/home/a.txt") = false
  /\ isBinaryFile (lit "hello") (lit "/home/logo.png") = true.
Proof.
  split; [|split].
  - apply (proj1 (isBinaryFile_classification
                    [104; 101; 108; 108; 111; 0; 119; 111; 114; 108]
                    (lit "/home/notes.txt"))).
    cbn [In]. do 5 right. left. reflexivity.
  - apply (proj1 (proj2 (isBinaryFile_classification (lit "hello")
                           (lit "/home/a.txt")))).
    + repeat constructor.
    + vm_compute. reflexivity.
  - apply (proj2 (proj2 (isBinaryFile_classification (lit "hello")
                           (lit "/home/logo.png")))).
    vm_compute. reflexivity.
Defined.

(** With a sample of size zero the ratio is 0/0, which is NaN, and NaN
    is not above 0.3. *)
Lemma isBinaryFile_nil (filePath : jsstring) :
  has binaryExts (toLowerCase (extname filePath)) = false ->
  isBinaryFile [] filePath = false.
Proof.
  intros Hext. unfold isBinaryFile. rewrite Hext.
  vm_compute. reflexivity.
Qed.

(* ================================================================== *)
(** ** The repository locator *)
(* ================================================================== *)

Lemma ancestors_self (dir : path) : In dir (ancestors dir).
Proof. destruct dir; left; reflexivity. Qed.

Lemma ancestors_length (dir d : path) :
  In d (ancestors dir) -> (List.length d <= List.length dir)%nat.
Proof.
  induction dir as [|c parent IH]; cbn [ancestors In List.length].
  - intros [<-|[]]. cbn [List.length]. lia.
  - intros [<-|H]; [cbn [List.length]; lia | specialize (IH H); lia].
Qed.

Lemma isGitRepo_unfold (w : world) (c : jsstring) (parent : path) :
  isGitRepo w (c :: parent)
  = if hasMarker w (c :: parent) then Some (c :: parent)
    else isGitRepo w parent.
Proof. reflexivity. Qed.

(** The filesystem root itself is never probed. *)
Lemma isGitRepo_root (w : world) : isGitRepo w Path.root = None.
Proof. reflexivity. Qed.

(** C2, as stated, fails: with a repository inside another one the
    locator returns the inner one, which is not the topmost. *)
Lemma isGitRepo_not_topmost :
  isGitRepo nestedRepos [lit "b"; lit "a"] = Some [lit "b"; lit "a"]
  /\ hasMarker nestedRepos [lit "a"] = true
  /\ ~ locatesTopmost nestedRepos [lit "b"; lit "a"].
Proof.
  split; [vm_compute; reflexivity|].
  split; [vm_compute; reflexivity|].
  unfold locatesTopmost.
  replace (isGitRepo nestedRepos [lit "b"; lit "a"])
    with (Some [lit "b"; lit "a"]) by (vm_compute; reflexivity).
  intros (_ & _ & Htop).
  specialize (Htop [lit "a"]).
  assert (Hm : hasMarker nestedRepos [lit "a"] = true)
    by (vm_compute; reflexivity).
  rewrite Htop in Hm; [discriminate Hm | | discriminate].
  cbn [ancestors In]. right. left. reflexivity.
Qed.

(** C2, amended.  The locator returns the nearest directory, among the
    starting directory and its ancestors below the filesystem root,
    that contains the marker directory; it finds none exactly when no
    directory below the root contains it.  A level where [statSync]
    throws is passed over as one without the marker. *)
Theorem isGitRepo_nearest (w : world) (dir : path) :
  (forall d, isGitRepo w dir = Some d ->
     In d (ancestors dir) /\ d <> Path.root /\ hasMarker w d = true
     /\ forall d', In d' (ancestors dir) ->
                   (List.length d < List.length d')%nat ->
                   hasMarker w d' = false)
  /\ (isGitRepo w dir = None ->
      forall d, In d (ancestors dir) -> d <> Path.root ->
                hasMarker w d = false)
  /\ (dir <> Path.root ->
      statSync w (Path.join dir (lit ".git")) = None ->
      isGitRepo w dir = isGitRepo w (Path.dirname dir)).
Proof.
  split; [|split].
  - induction dir as [|c parent IH]; intros d Hd; [discriminate Hd|].
    rewrite isGitRepo_unfold in Hd.
    destruct (hasMarker w (c :: parent)) eqn:Hm.
    + injection Hd as <-. repeat split.
      * apply ancestors_self.
      * discriminate.
      * exact Hm.
      * intros d' Hin Hlt. apply ancestors_length in Hin. lia.
    + destruct (IH d Hd) as (Hin & Hne & Hmark & Hnear).
      repeat split; auto.
      * right. exact Hin.
      * intros d' [<-|Hin'] Hlt; [exact Hm | auto].
  - induction dir as [|c parent IH]; intros Hnone d Hin Hne.
    + destruct Hin as [<-|[]]. exfalso. apply Hne. reflexivity.
    + rewrite isGitRepo_unfold in Hnone.
      destruct (hasMarker w (c :: parent)) eqn:Hm; [discriminate Hnone|].
      destruct Hin as [<-|Hin]; [exact Hm | auto].
  - intros Hne Hthrow.
    destruct dir as [|c parent]; [exfalso; apply Hne; reflexivity|].
    cbn [Path.dirname tl].
    rewrite isGitRepo_unfold.
    unfold hasMarker. rewrite Hthrow, andb_false_r. reflexivity.
Qed.

(** In [/a/b] with both [/a] and [/a/b] repositories, the locator
    answers [/a/b]. *)
Lemma isGitRepo_nearest_witness :
  isGitRepo nestedRepos [lit "b"; lit "a"] = Some [lit "b"; lit "a"]
  /\ hasMarker nestedRepos [lit "b"; lit "a"] = true.
Proof.
  assert (H : isGitRepo nestedRepos [lit "b"; lit "a"]
              = Some [lit "b"; lit "a"]) by (vm_compute; reflexivity).
  split; [exact H|].
  exact (proj1 (proj2 (proj2
           (proj1 (isGitRepo_nearest nestedRepos [lit "b"; lit "a"])
              [lit "b"; lit "a"] H)))).
Defined.

(* ================================================================== *)
(** ** Declining the prompt *)
(* ================================================================== *)

(** C8.  With no repository found and an answer that is neither [y]
    nor [Y], the run asks, prints the cancellation line, closes the
    prompt and returns: nothing is handed to the clipboard, no
    directory is listed, no unit is produced, no error is printed. *)
Theorem main_declined (w : world) :
  isGitRepo w (cwd w) = None ->
  answer w <> lit "y" ->
  answer w <> lit "Y" ->
  effects (main w)
  = [Question NoRepositoryContinue; ConsoleLog OperationCancelled; Close]
  /\ delivered (effects (main w)) = None
  /\ final (main w) = initial
  /\ history (final (main w)) = [].
Proof.
  intros Hrepo Hy HY. unfold main. rewrite Hrepo.
  destruct (str_eqb (toLowerCase (answer w)) (lit "y")) eqn:Heq.
  - apply str_eqb_eq, toLowerCase_y in Heq. tauto.
  - cbn. repeat split; reflexivity.
Qed.

Lemma main_declined_witness :
  effects (main declined)
  = [Question NoRepositoryContinue; ConsoleLog OperationCancelled; Close]
  /\ delivered (effects (main declined)) = None
  /\ final (main declined) = initial
  /\ history (final (main declined)) = [].
Proof.
  apply (main_declined declined).
  - vm_compute. reflexivity.
  - discriminate.
  - discriminate.
Defined.

(* ================================================================== *)
(** ** The walker, one entry at a time *)
(* ================================================================== *)

Section EntryRules.

Variable cwd : path.
Variable ig : jsstring -> bool.
Variable self : path -> node -> state -> completion * state.

Lemma entries_limit dirPath files output st :
  limitReached st = true ->
  entries cwd ig self dirPath files output st = (Some output, st).
Proof.
  intros H. destruct files as [|[file child] rest]; [reflexivity|].
  cbn [entries]. rewrite H. reflexivity.
Qed.

End EntryRules.

Lemma steps_trans ig (a b c : state) :
  steps ig a b -> steps ig b c -> steps ig a c.
Proof.
  intros Hab Hbc. induction Hbc as [|b c d _ IH Hcd]; [exact Hab|].
  exact (steps_next ig a c d (IH Hab) Hcd).
Qed.

Lemma steps_one ig (a b : state) : step ig a b -> steps ig a b.
Proof. intros H. exact (steps_next ig a a b (steps_refl ig a) H). Qed.

Lemma gtb_false (a b : Z) : (a >? b) = false -> a <= b.
Proof. rewrite Z.gtb_ltb. intros H. apply Z.ltb_ge. exact H. Qed.

(** The loop only changes the state by steps, when the calls on the
    entries do. *)
Lemma entries_steps cwd ig self dirPath files :
  Forall (fun e => forall p st, limitReached st = false ->
                                steps ig st (snd (self p (snd e) st))) files ->
  forall output st,
    steps ig st (snd (entries cwd ig self dirPath files output st)).
Proof.
  induction 1 as [|[file child] rest Hchild _ IH]; intros output st.
  - apply steps_refl.
  - cbn [entries]. cbn [snd] in Hchild.
    destruct (limitReached st) eqn:Hlim; [apply steps_refl|].
    destruct (startsWith (lit ".") file
              && negb (str_eqb file (lit ".gitignore"))); [apply IH|].
    destruct (lstatFails child); [apply IH|].
    destruct (isSymbolicLink child); [apply IH|].
    destruct (ig (relative cwd (Path.join dirPath file))) eqn:Hig;
      [apply IH|].
    destruct child as [listing|data| | |]; try apply IH.
    + (* a directory *)
      destruct (_ >? MAX_SIZE).
      { apply steps_one, step_limit, Hlim. }
      specialize (Hchild (Path.join dirPath file) st Hlim).
      destruct (self (Path.join dirPath file) (Dir listing) st)
        as [[folderOutput|] st1]; cbn [snd] in Hchild; [|exact Hchild].
      destruct (truthy folderOutput).
      * eapply steps_trans; [|apply IH].
        eapply steps_trans; [exact Hchild|].
        apply steps_one, step_folder, Hig.
      * eapply steps_trans; [exact Hchild | apply IH].
    + (* a regular file *)
      destruct (_ >? MAX_SIZE).
      { apply steps_one, step_limit, Hlim. }
      destruct data as [buffer|]; [|apply IH].
      destruct (isBinaryFile buffer _).
      * destruct (_ >? MAX_SIZE) eqn:Hfit.
        { apply steps_one, step_limit, Hlim. }
        eapply steps_trans; [|apply IH].
        apply steps_one, step_unit; auto using gtb_false.
      * destruct (toString buffer) as [content|]; [|apply steps_refl].
        destruct (_ >? MAX_SIZE) eqn:Hfit.
        { apply steps_one, step_limit, Hlim. }
        eapply steps_trans; [|apply IH].
        rewrite <- byteLength_fileBlock in *.
        apply steps_one, step_unit; auto using gtb_false.
Qed.

Lemma processDirectory_steps cwd ig (n : node) :
  forall dirPath st, limitReached st = false ->
    steps ig st (snd (processDirectory cwd ig dirPath n st)).
Proof.
  induction n as [files IH| | | | |] using node_nested_ind;
    intros dirPath st Hlim; cbn [processDirectory snd];
    try (apply steps_one, step_readdir, Hlim).
  eapply steps_trans; [apply steps_one, step_readdir, Hlim|].
  apply entries_steps. exact IH.
Qed.

(* ================================================================== *)
(** ** What steps preserve *)
(* ================================================================== *)

Lemma committed_app (a b : list event) :
  committed (a ++ b) = committed a + committed b.
Proof.
  induction a as [|[ | |k p text n] a IH]; cbn [app committed]; lia.
Qed.

Lemma committed_nonneg (h : list event) : 0 <= committed h.
Proof.
  induction h as [|[ | |k p text n] h IH]; cbn [committed]; try lia.
  pose proof (byteLength_nonneg text). lia.
Qed.

Lemma accounted_app (a b : list event) :
  forall size, accounted size a -> accounted (size + committed a) b ->
               accounted size (a ++ b).
Proof.
  induction a as [|[ | |k p text n] a IH]; intros size Ha Hb;
    cbn [app accounted committed] in *; auto.
  - replace (size + 0) with size in Hb by lia. exact Hb.
  - destruct Ha as [-> Ha]. split; [reflexivity|].
    apply IH; [exact Ha|].
    replace (size + byteLength text + committed a)
      with (size + (byteLength text + committed a)) by lia.
    exact Hb.
Qed.

Lemma afterLimit_app_in (l m : list event) :
  In LimitSet l -> afterLimit (l ++ m) = afterLimit l ++ m.
Proof.
  induction l as [|[ | |k p text n] l IH]; cbn [In app afterLimit];
    intros H; try tauto.
  - destruct H as [H|H]; [discriminate H | auto].
  - destruct H as [H|H]; [discriminate H | auto].
Qed.

Lemma afterLimit_app_out (l m : list event) :
  ~ In LimitSet l -> afterLimit (l ++ m) = afterLimit m.
Proof.
  induction l as [|[ | |k p text n] l IH]; cbn [In app afterLimit];
    intros H; try tauto; apply IH; tauto.
Qed.

(** Every step adds one event to the history. *)
Lemma step_event ig st st' :
  step ig st st' ->
  exists e,
    history st' = history st ++ [e]
    /\ currentSize st' = currentSize st + committed [e]
    /\ accounted (currentSize st) [e]
    /\ (limitReached st = true ->
        limitReached st' = true /\ isFolderEmit e = true)
    /\ (limitReached st = false ->
        (limitReached st' = true <-> e = LimitSet))
    /\ match e with Emit _ p _ _ => ig p = false | _ => True end.
Proof.
  intros H.
  destruct H as [st dirPath Hlim|st Hlim|st k p text Hlim Hig Hk Hfit
                |st p Hig];
    eexists; (split; [reflexivity|]);
    cbn [currentSize limitReached record setLimit emit committed accounted];
    repeat split; try congruence; try lia; auto.
  all: try (intros; discriminate).
Qed.

(** What a sequence of steps has done since its first state. *)
Lemma steps_history ig st st' :
  steps ig st st' ->
  exists new,
    history st' = history st ++ new
    /\ currentSize st' = currentSize st + committed new
    /\ accounted (currentSize st) new
    /\ (limitReached st = true ->
        limitReached st' = true
        /\ Forall (fun e => isFolderEmit e = true) new)
    /\ (limitReached st = false ->
        (limitReached st' = true <-> In LimitSet new)
        /\ Forall (fun e => isFolderEmit e = true) (afterLimit new))
    /\ Forall (fun e => match e with
                        | Emit _ p _ _ => ig p = false
                        | _ => True
                        end) new.
Proof.
  induction 1 as [st|st st1 st2 _ IH Hstep].
  - exists []. rewrite app_nil_r. cbn [committed accounted In afterLimit].
    repeat split; auto; try lia; try tauto; try congruence.
  - destruct IH as (new & Hh & Hsize & Hacc & Hset & Hunset & Hig).
    destruct (step_event ig st1 st2 Hstep)
      as (e & Hh' & Hsize' & Hacc' & Hset' & Hunset' & Hig').
    exists (new ++ [e]).
    split; [rewrite Hh', Hh, app_assoc; reflexivity|].
    split; [rewrite committed_app; lia|].
    split; [apply accounted_app; [exact Hacc | rewrite <- Hsize; exact Hacc']|].
    split; [|split].
    + intros Hlim. destruct (Hset Hlim) as [Hlim1 Hall].
      destruct (Hset' Hlim1) as [Hlim2 He].
      split; [exact Hlim2|]. apply Forall_app. split; [exact Hall|].
      constructor; [exact He | constructor].
    + intros Hlim. destruct (Hunset Hlim) as [Hiff Hafter].
      destruct (limitReached st1) eqn:Hlim1.
      * (* the flag was set by an earlier step *)
        assert (Hin : In LimitSet new) by (apply Hiff; reflexivity).
        destruct (Hset' eq_refl) as [Hlim2 He].
        split.
        { split; [intros _; apply in_or_app; left; exact Hin
                 | intros _; exact Hlim2]. }
        rewrite afterLimit_app_in by exact Hin.
        apply Forall_app. split; [exact Hafter|].
        constructor; [exact He | constructor].
      * (* the flag is still unset before this step *)
        assert (Hout : ~ In LimitSet new).
        { intros Hin. apply Hiff in Hin. discriminate Hin. }
        split.
        { rewrite (Hunset' eq_refl). split.
          - intros ->. apply in_or_app. right. left. reflexivity.
          - intros Hin. apply in_app_or in Hin.
            destruct Hin as [Hin|[Hin|[]]]; [tauto | auto]. }
        rewrite afterLimit_app_out by exact Hout.
        destruct e; cbn [afterLimit]; constructor.
    + apply Forall_app. split; [exact Hig|].
      constructor; [exact Hig' | constructor].
Qed.

Lemma eventsSince_app (st st' : state) (new : list event) :
  history st' = history st ++ new -> eventsSince st st' = new.
Proof.
  intros H. unfold eventsSince. rewrite H.
  rewrite skipn_app, skipn_all, Nat.sub_diag. reflexivity.
Qed.

Lemma steps_limit_permanent ig st st' :
  steps ig st st' -> limitReached st = true -> limitReached st' = true.
Proof.
  intros H Hlim. destruct (steps_history ig st st' H)
    as (new & _ & _ & _ & Hset & _). apply Hset, Hlim.
Qed.

Lemma steps_size_monotone ig st st' :
  steps ig st st' -> currentSize st <= currentSize st'.
Proof.
  intros H. destruct (steps_history ig st st' H) as (new & _ & Hsize & _).
  pose proof (committed_nonneg new). lia.
Qed.

(* ================================================================== *)
(** ** The output is the text of the units *)
(* ================================================================== *)

Lemma truthy_nonempty (s : jsstring) : truthy s = true -> s <> [].
Proof. destruct s; [discriminate | discriminate]. Qed.

Lemma truthy_empty (s : jsstring) : truthy s = false -> s = [].
Proof. destruct s; [reflexivity | discriminate]. Qed.

Lemma entries_renders cwd ig self dirPath files :
  Forall (fun e => forall p st,
            exists new,
              history (snd (self p (snd e) st)) = history st ++ new
              /\ forall sub, fst (self p (snd e) st) = Some sub ->
                             renders new sub) files ->
  forall output st,
    exists new,
      history (snd (entries cwd ig self dirPath files output st))
      = history st ++ new
      /\ forall out,
           fst (entries cwd ig self dirPath files output st) = Some out ->
           exists suffix, out = output ++ suffix /\ renders new suffix.
Proof.
  assert (Hstay : forall output (st : state),
            exists new,
              history (snd (Some output, st)) = history st ++ new
              /\ forall out,
                   fst (Some output, st) = Some out ->
                   exists suffix, out = output ++ suffix /\ renders new suffix).
  { intros. exists []. cbn [fst snd]. rewrite app_nil_r.
    split; [reflexivity|]. intros out E; injection E as <-.
    exists []. rewrite app_nil_r. auto using renders_nil. }
  assert (Hstop : forall output (st : state),
            exists new,
              history (snd (Some output, setLimit st)) = history st ++ new
              /\ forall out,
                   fst (Some output, setLimit st) = Some out ->
                   exists suffix, out = output ++ suffix /\ renders new suffix).
  { intros. exists [LimitSet]. cbn [fst snd]. split; [reflexivity|].
    intros out E; injection E as <-. exists []. rewrite app_nil_r.
    split; [reflexivity|].
    apply renders_quiet; [reflexivity | apply renders_nil]. }
  induction 1 as [|[file child] rest Hchild _ IH]; intros output st.
  - apply Hstay.
  - cbn [entries]. cbn [snd] in Hchild.
    destruct (limitReached st) eqn:Hlim; [apply Hstay|].
    destruct (startsWith (lit ".") file
              && negb (str_eqb file (lit ".gitignore"))); [apply IH|].
    destruct (lstatFails child); [apply IH|].
    destruct (isSymbolicLink child); [apply IH|].
    destruct (ig (relative cwd (Path.join dirPath file))); [apply IH|].
    destruct child as [listing|data| | |]; try apply IH.
    + (* a directory *)
      destruct (_ >? MAX_SIZE); [apply Hstop|].
      destruct (Hchild (Path.join dirPath file) st) as (inner & Hh & Hr).
      destruct (self (Path.join dirPath file) (Dir listing) st)
        as [[folderOutput|] st1]; cbn [fst snd] in Hh, Hr.
      2:{ exists inner. cbn [fst snd]. split; [exact Hh|].
          intros out E; discriminate E. }
      specialize (Hr folderOutput eq_refl).
      destruct (truthy folderOutput) eqn:Htruthy.
      * match goal with
        | |- context [entries _ _ _ _ _ ?o ?s] =>
            destruct (IH o s) as (new & Hh' & Ho')
        end.
        exists (inner ++ Emit FolderHeader
                           (relative cwd (Path.join dirPath file))
                           (folderHeaderOf
                              (relative cwd (Path.join dirPath file)))
                           (currentSize st1
                            + byteLength
                                (folderHeaderOf
                                   (relative cwd (Path.join dirPath file))))
                         :: new).
        split.
        -- rewrite Hh'. cbn [emit history]. rewrite Hh.
           rewrite <- !app_assoc. reflexivity.
        -- intros out E. destruct (Ho' out E) as (suffix & -> & Hr').
           exists (folderHeaderOf (relative cwd (Path.join dirPath file))
                   ++ folderOutput ++ suffix).
           split; [rewrite <- !app_assoc; reflexivity|].
           apply renders_folder; auto using truthy_nonempty.
      * apply truthy_empty in Htruthy. subst folderOutput.
        destruct (IH output st1) as (new & Hh' & Ho').
        exists (inner ++ new).
        split.
        -- rewrite Hh', Hh, app_assoc. reflexivity.
        -- intros out E. destruct (Ho' out E) as (suffix & -> & Hr').
           exists suffix. split; [reflexivity|].
           apply renders_empty; assumption.
    + (* a regular file *)
      destruct (_ >? MAX_SIZE); [apply Hstop|].
      destruct data as [buffer|]; [|apply IH].
      destruct (isBinaryFile buffer _).
      * destruct (_ >? MAX_SIZE); [apply Hstop|].
        match goal with
        | |- context [entries _ _ _ _ _ ?o (emit ?k ?p ?t ?n ?s)] =>
            destruct (IH o (emit k p t n s)) as (new & Hh' & Ho');
            exists (Emit k p t (currentSize s + n) :: new); split;
            [rewrite Hh'; cbn [emit history]; rewrite <- app_assoc;
             reflexivity|];
            intros out E; destruct (Ho' out E) as (suffix & -> & Hr');
            exists (t ++ suffix)
        end.
        split; [rewrite <- !app_assoc; reflexivity|].
        apply renders_unit; auto.
        destruct (fileHeader_shape (relative cwd (Path.join dirPath file)))
          as [body Hbody].
        unfold binaryNoteOf. rewrite Hbody.
        rewrite <- !app_assoc. eexists. reflexivity.
      * destruct (toString buffer) as [content|].
        2:{ exists []. cbn [fst snd]. rewrite app_nil_r.
            split; [reflexivity|]. intros out E; discriminate E. }
        destruct (_ >? MAX_SIZE); [apply Hstop|].
        match goal with
        | |- context [entries _ _ _ _ _ ?o (emit ?k ?p ?t ?n ?s)] =>
            destruct (IH o (emit k p t n s)) as (new & Hh' & Ho');
            exists (Emit k p t (currentSize s + n) :: new); split;
            [rewrite Hh'; cbn [emit history]; rewrite <- app_assoc;
             reflexivity|];
            intros out E; destruct (Ho' out E) as (suffix & -> & Hr');
            exists (t ++ suffix)
        end.
        split; [rewrite <- !app_assoc; reflexivity|].
        apply renders_unit; auto.
        destruct (fileHeader_shape (relative cwd (Path.join dirPath file)))
          as [body Hbody].
        rewrite Hbody. rewrite <- !app_assoc. eexists. reflexivity.
Qed.

(** The text a call returns is the text of the units it has emitted. *)
Lemma processDirectory_renders cwd ig (n : node) :
  forall dirPath st,
    exists new,
      history (snd (processDirectory cwd ig dirPath n st)) = history st ++ new
      /\ forall out,
           fst (processDirectory cwd ig dirPath n st) = Some out ->
           renders new out.
Proof.
  induction n as [files IH| | | | |] using node_nested_ind;
    intros dirPath st; cbn [processDirectory fst snd];
    try (exists [ReadDir dirPath]; split; [reflexivity|];
         intros out E; injection E as <-;
         apply renders_quiet; [reflexivity | apply renders_nil]).
  destruct (entries_renders cwd ig (processDirectory cwd ig) dirPath files IH
              [] (record (ReadDir dirPath) st))
    as (new & Hh & Ho).
  exists (ReadDir dirPath :: new). split.
  - rewrite Hh. cbn [record history]. rewrite <- app_assoc. reflexivity.
  - intros out E. destruct (Ho out E) as (suffix & -> & Hr).
    cbn [app]. apply renders_quiet; [reflexivity | exact Hr].
Qed.

(** Rendered text is empty or starts a new line. *)
Lemma renders_shape new s :
  renders new s -> s = [] \/ exists rest, s = nl ++ rest.
Proof.
  induction 1 as [|e new s _ _ IH|k p text n new s _ [rest ->] _ _
                 |inner sub p n new s _ _ _ _ _|inner new s _ _ _ IH]; auto.
  - right. rewrite <- app_assoc. eexists. reflexivity.
  - right. destruct (folderHeader_shape p) as [body ->].
    rewrite <- !app_assoc. eexists. reflexivity.
Qed.

Lemma byteLength_before_rendered a new s :
  renders new s -> byteLength (a ++ s) = byteLength a + byteLength s.
Proof.
  intros H. apply byteLength_app.
  destruct (renders_shape new s H) as [->|[rest ->]]; [exact I | reflexivity].
Qed.

(** Its size is the size of the units. *)
Lemma renders_size new s : renders new s -> byteLength s = committed new.
Proof.
  induction 1 as [|e new s He _ IH|k p text n new s _ _ Hr IH
                 |inner sub p n new s Hi IHi Hne Hr IH
                 |inner new s _ IHi _ IH].
  - reflexivity.
  - destruct e; try discriminate He; cbn [committed]; exact IH.
  - cbn [committed]. rewrite (byteLength_before_rendered text new s Hr). lia.
  - rewrite committed_app. cbn [committed].
    rewrite byteLength_folderBlock.
    rewrite (byteLength_before_rendered sub new s Hr). lia.
  - rewrite committed_app. cbn [byteLength] in IHi. lia.
Qed.


(** No text, no unit. *)
Lemma renders_empty_quiet new :
  renders new [] -> Forall (fun e => isEmit e = false) new.
Proof.
  intros H. remember [] as s eqn:Hs.
  induction H as [|e new s He _ IH|k p text n new s _ [rest ->] _ _
                 |inner sub p n new s _ _ _ _ _
                 |inner new s _ IHi _ IH]; subst.
  - constructor.
  - constructor; auto.
  - discriminate Hs.
  - destruct (folderHeader_shape p) as [body Hbody]. rewrite Hbody in Hs.
    discriminate Hs.
  - apply Forall_app. auto.
Qed.

(* ================================================================== *)
(** ** The loop, entry by entry *)
(* ================================================================== *)

Section EntryEquations.

Variable cwd : path.
Variable ig : jsstring -> bool.
Variable self : path -> node -> state -> completion * state.

Lemma entries_skip dirPath file child rest output st :
  eligible cwd ig dirPath file child = false ->
  entries cwd ig self dirPath ((file, child) :: rest) output st
  = if limitReached st then (Some output, st)
    else entries cwd ig self dirPath rest output st.
Proof.
  unfold eligible. intros H. cbn [entries].
  destruct (limitReached st); [reflexivity|].
  destruct (startsWith (lit ".") file
            && negb (str_eqb file (lit ".gitignore"))); [reflexivity|].
  destruct (lstatFails child); [reflexivity|].
  destruct (isSymbolicLink child); [reflexivity|].
  destruct (ig _); [reflexivity | discriminate H].
Qed.

Lemma entries_dir dirPath file listing rest output st :
  limitReached st = false ->
  eligible cwd ig dirPath file (Dir listing) = true ->
  let relativePath := Path.relative cwd (Path.join dirPath file) in
  let folderHeader := folderHeaderOf relativePath in
  entries cwd ig self dirPath ((file, Dir listing) :: rest) output st
  = if currentSize st + len folderHeader >? MAX_SIZE
    then (Some output, setLimit st)
    else
      match self (Path.join dirPath file) (Dir listing) st with
      | (None, st1) => (None, st1)
      | (Some folderOutput, st1) =>
          if truthy folderOutput then
            entries cwd ig self dirPath rest
              (output ++ folderHeader ++ folderOutput)
              (emit FolderHeader relativePath folderHeader
                 (byteLength folderHeader) st1)
          else entries cwd ig self dirPath rest output st1
      end.
Proof.
  intros Hlim Hok. cbn [entries]. rewrite Hlim.
  pass_filters Hok. reflexivity.
Qed.

Lemma entries_file dirPath file buffer rest output st :
  limitReached st = false ->
  eligible cwd ig dirPath file (File (Some buffer)) = true ->
  let relativePath := Path.relative cwd (Path.join dirPath file) in
  let fileHeader := fileHeaderOf relativePath in
  entries cwd ig self dirPath ((file, File (Some buffer)) :: rest) output st
  = if currentSize st + byteLength fileHeader >? MAX_SIZE
    then (Some output, setLimit st)
    else if isBinaryFile buffer (Path.toStr (Path.join dirPath file)) then
      if currentSize st + byteLength (binaryNoteOf fileHeader) >? MAX_SIZE
      then (Some output, setLimit st)
      else
        entries cwd ig self dirPath rest (output ++ binaryNoteOf fileHeader)
          (emit BinaryNote relativePath (binaryNoteOf fileHeader)
             (byteLength (binaryNoteOf fileHeader)) st)
    else
      match toString buffer with
      | None => (None, st)
      | Some content =>
          if currentSize st + (byteLength fileHeader + byteLength content)
             >? MAX_SIZE
          then (Some output, setLimit st)
          else
            entries cwd ig self dirPath rest
              (output ++ fileHeader ++ content)
              (emit FileBlock relativePath (fileHeader ++ content)
                 (byteLength fileHeader + byteLength content) st)
      end.
Proof.
  intros Hlim Hok. cbn [entries]. rewrite Hlim.
  pass_filters Hok. reflexivity.
Qed.

End EntryEquations.

Lemma main_confirmed (w : world) :
  isGitRepo w (cwd w) = None ->
  toLowerCase (answer w) = lit "y" ->
  main w = proceed w None [Question NoRepositoryContinue].
Proof.
  intros Hrepo Hy. unfold main. rewrite Hrepo, Hy. reflexivity.
Qed.

Lemma proceed_final (w : world) gitRoot asked :
  final (proceed w gitRoot asked)
  = snd (processDirectory (cwd w)
           (loadGitIgnoreRules w
              (match gitRoot with Some r => r | None => cwd w end))
           (cwd w) (tree w)
           (emit RootHeader [] (rootHeaderOf (Path.basename (cwd w)))
              (byteLength (rootHeaderOf (Path.basename (cwd w)))) initial)).
Proof.
  unfold proceed. destruct (processDirectory _ _ _ _ _) as [[walked|] st];
    reflexivity.
Qed.

Lemma xs_text (n : Z) : Forall (fun b => isTextByte b = true) (xs n).
Proof.
  unfold xs. induction (Z.to_nat n) as [|k IH]; cbn [repeat];
    constructor; auto.
Qed.

Lemma xs_ascii (n : Z) : Forall (fun b => b <= 127) (xs n).
Proof.
  unfold xs. induction (Z.to_nat n) as [|k IH]; cbn [repeat];
    constructor; auto. lia.
Qed.

Lemma xs_len (n : Z) : 0 <= n -> len (xs n) = n.
Proof. intros Hn. unfold len, xs. rewrite repeat_length. lia. Qed.

Lemma xs_size (n : Z) : 0 <= n -> byteLength (xs n) = n.
Proof.
  intros Hn. rewrite byteLength_ascii; [apply xs_len, Hn|].
  unfold xs.
  induction (Z.to_nat n) as [|k IH]; cbn [repeat]; constructor; auto.
  lia.
Qed.

(** A buffer of letters is decoded to itself, up to the longest string
    of the platform; beyond, the call throws. *)
Lemma xs_toString (n : Z) :
  0 <= n <= maxStringLength -> toString (xs n) = Some (xs n).
Proof.
  intros Hn. rewrite toString_fits by (rewrite xs_len; lia).
  rewrite (decode_ascii _ (xs_ascii n)). reflexivity.
Qed.

Lemma xs_toString_throws (n : Z) :
  maxStringLength < n -> toString (xs n) = None.
Proof.
  intros Hn. apply toString_throws.
  rewrite xs_len; unfold maxStringLength in *; lia.
Qed.

(** The equations above, with the budget checks decided. *)
Section EntryRuns.

Variable cwd : path.
Variable ig : jsstring -> bool.
Variable self : path -> node -> state -> completion * state.

Lemma entries_dir_enter dirPath file listing rest output st :
  limitReached st = false ->
  eligible cwd ig dirPath file (Dir listing) = true ->
  (currentSize st
   + len (folderHeaderOf (Path.relative cwd (Path.join dirPath file)))
   >? MAX_SIZE) = false ->
  entries cwd ig self dirPath ((file, Dir listing) :: rest) output st
  = match self (Path.join dirPath file) (Dir listing) st with
    | (None, st1) => (None, st1)
    | (Some folderOutput, st1) =>
        if truthy folderOutput then
          entries cwd ig self dirPath rest
            (output
             ++ folderHeaderOf (Path.relative cwd (Path.join dirPath file))
             ++ folderOutput)
            (emit FolderHeader (Path.relative cwd (Path.join dirPath file))
               (folderHeaderOf (Path.relative cwd (Path.join dirPath file)))
               (byteLength
                  (folderHeaderOf
                     (Path.relative cwd (Path.join dirPath file))))
               st1)
        else entries cwd ig self dirPath rest output st1
    end.
Proof.
  intros Hlim Hok Hfit. rewrite entries_dir by assumption.
  cbv zeta. rewrite Hfit. reflexivity.
Qed.

Lemma entries_text_fits dirPath file buffer content rest output st :
  limitReached st = false ->
  eligible cwd ig dirPath file (File (Some buffer)) = true ->
  isBinaryFile buffer (Path.toStr (Path.join dirPath file)) = false ->
  toString buffer = Some content ->
  (currentSize st
   + (byteLength (fileHeaderOf (Path.relative cwd (Path.join dirPath file)))
      + byteLength content)
   >? MAX_SIZE) = false ->
  entries cwd ig self dirPath ((file, File (Some buffer)) :: rest) output st
  = entries cwd ig self dirPath rest
      (output ++ fileHeaderOf (Path.relative cwd (Path.join dirPath file))
       ++ content)
      (emit FileBlock (Path.relative cwd (Path.join dirPath file))
         (fileHeaderOf (Path.relative cwd (Path.join dirPath file))
          ++ content)
         (byteLength
            (fileHeaderOf (Path.relative cwd (Path.join dirPath file)))
          + byteLength content) st).
Proof.
  intros Hlim Hok Htext Hdec Hfit. rewrite entries_file by assumption.
  cbv zeta. rewrite Htext, Hdec, Hfit.
  replace (_ >? MAX_SIZE) with false; [reflexivity|].
  symmetry. apply gtb_false in Hfit.
  pose proof (byteLength_nonneg content).
  rewrite Z.gtb_ltb. apply Z.ltb_ge. lia.
Qed.

Lemma entries_text_over dirPath file buffer content rest output st :
  limitReached st = false ->
  eligible cwd ig dirPath file (File (Some buffer)) = true ->
  isBinaryFile buffer (Path.toStr (Path.join dirPath file)) = false ->
  toString buffer = Some content ->
  currentSize st
  + (byteLength (fileHeaderOf (Path.relative cwd (Path.join dirPath file)))
     + byteLength content)
  > MAX_SIZE ->
  entries cwd ig self dirPath ((file, File (Some buffer)) :: rest) output st
  = (Some output, setLimit st).
Proof.
  intros Hlim Hok Htext Hdec Hover. rewrite entries_file by assumption.
  cbv zeta. rewrite Htext, Hdec.
  destruct (_ >? MAX_SIZE); [reflexivity|].
  replace (_ >? MAX_SIZE) with true; [reflexivity|].
  symmetry. rewrite Z.gtb_ltb. apply Z.ltb_lt. lia.
Qed.

(** A text file too long for a string: the decoding throws, and the
    exception leaves the loop. *)
Lemma entries_text_throws dirPath file buffer rest output st :
  limitReached st = false ->
  eligible cwd ig dirPath file (File (Some buffer)) = true ->
  isBinaryFile buffer (Path.toStr (Path.join dirPath file)) = false ->
  (currentSize st
   + byteLength (fileHeaderOf (Path.relative cwd (Path.join dirPath file)))
   >? MAX_SIZE) = false ->
  toString buffer = None ->
  entries cwd ig self dirPath ((file, File (Some buffer)) :: rest) output st
  = (None, st).
Proof.
  intros Hlim Hok Htext Hfit Hdec. rewrite entries_file by assumption.
  cbv zeta. rewrite Htext, Hdec, Hfit. reflexivity.
Qed.

End EntryRuns.

Lemma deep_run (data : buffer) (content : jsstring) :
  isBinaryFile data (lit "/r/a/b/f.txt") = false ->
  toString data = Some content ->
  byteLength content = 5242829 ->
  sizesOf (history (final (main (plainWorld (deepTree data)))))
  = [26; 5242880; 5242901; 5242920]
  /\ limitReached (final (main (plainWorld (deepTree data)))) = false
  /\ currentSize (final (main (plainWorld (deepTree data)))) = 5242920.
Proof.
  intros Htext Hdec Hsize.
  rewrite main_confirmed by (vm_compute; reflexivity).
  rewrite proceed_final.
  change (loadGitIgnoreRules _ _) with noRules.
  unfold deepTree. cbn [plainWorld cwd tree processDirectory].
  rewrite entries_dir_enter by side Hsize.
  cbn [processDirectory].
  rewrite entries_dir_enter by side Hsize.
  cbn [processDirectory].
  rewrite (entries_text_fits _ _ _ _ _ _ content)
    by (exact Htext || exact Hdec || side Hsize).
  cbn [entries truthy app fileHeaderOf folderHeaderOf nl snd].
  cbn [history limitReached currentSize emit record initial sizesOf app].
  rewrite Hsize. repeat split; vm_compute; reflexivity.
Qed.

(* ================================================================== *)
(** ** An empty file *)
(* ================================================================== *)

(** C10.  An empty buffer under a path whose lower-cased extension is
    not in the denylist is text: with a sample of size zero the ratio
    is 0/0, which is NaN, and NaN is not above 0.3.  So the walker
    emits an empty file, when its header fits, as a text block made of
    the header alone, and goes on. *)
Theorem empty_file_is_text :
  (forall filePath,
     has binaryExts (toLowerCase (extname filePath)) = false ->
     isBinaryFile [] filePath = false)
  /\ (forall cwd ig self dirPath file rest output st,
        limitReached st = false ->
        eligible cwd ig dirPath file (File (Some [])) = true ->
        has binaryExts
          (toLowerCase (extname (Path.toStr (Path.join dirPath file))))
        = false ->
        (currentSize st
         + byteLength
             (fileHeaderOf (Path.relative cwd (Path.join dirPath file)))
         >? MAX_SIZE) = false ->
        entries cwd ig self dirPath ((file, File (Some [])) :: rest)
          output st
        = entries cwd ig self dirPath rest
            (output
             ++ fileHeaderOf (Path.relative cwd (Path.join dirPath file)))
            (emit FileBlock (Path.relative cwd (Path.join dirPath file))
               (fileHeaderOf (Path.relative cwd (Path.join dirPath file)))
               (byteLength
                  (fileHeaderOf
                     (Path.relative cwd (Path.join dirPath file)))) st)).
Proof.
  split; [exact isBinaryFile_nil|].
  intros cwd ig self dirPath file rest output st Hlim Hok Hext Hfit.
  rewrite (entries_text_fits _ _ _ _ _ _ []); auto using isBinaryFile_nil.
  - change (byteLength []) with 0.
    rewrite app_nil_r, Z.add_0_r. reflexivity.
  - change (byteLength []) with 0.
    rewrite Z.add_0_r. exact Hfit.
Qed.

(** The empty file [empty.txt] in [/r]. *)
Lemma empty_file_is_text_witness :
  isBinaryFile [] (lit "/r/empty.txt") = false
  /\ entries [lit "r"] noRules (processDirectory [lit "r"] noRules)
       [lit "r"] [(lit "empty.txt", File (Some []))] [] initial
     = (Some (fileHeaderOf (lit "empty.txt")),
        emit FileBlock (lit "empty.txt") (fileHeaderOf (lit "empty.txt")) 25
          initial).
Proof.
  split.
  - apply (proj1 empty_file_is_text (lit "/r/empty.txt")).
    vm_compute. reflexivity.
  - rewrite (proj2 empty_file_is_text [lit "r"] noRules
               (processDirectory [lit "r"] noRules) [lit "r"]
               (lit "empty.txt") [] [] initial);
      vm_compute; reflexivity.
Defined.

(** A run of text files that all fit. *)
Lemma entries_text_files cwd ig self dirPath (data : buffer)
    (content : jsstring) (h : Z) names :
  Forall (fun name =>
            eligible cwd ig dirPath name (File None) = true
            /\ has binaryExts
                 (toLowerCase (extname (Path.toStr (Path.join dirPath name))))
               = false
            /\ byteLength
                 (fileHeaderOf (Path.relative cwd (Path.join dirPath name)))
               = h) names ->
  Forall (fun b => isTextByte b = true) data ->
  toString data = Some content ->
  forall rest output st,
    limitReached st = false ->
    currentSize st
    + Z.of_nat (List.length names) * (h + byteLength content)
    <= MAX_SIZE ->
    exists output' st',
      entries cwd ig self dirPath
        (map (fun name => (name, File (Some data))) names ++ rest) output st
      = entries cwd ig self dirPath rest output' st'
      /\ limitReached st' = false
      /\ currentSize st'
         = currentSize st
           + Z.of_nat (List.length names) * (h + byteLength content)
      /\ exists new,
           history st' = history st ++ new
           /\ unitsWithin (h + byteLength content) new.
Proof.
  intros Hnames Htext Hdec.
  induction Hnames as [|name names (Hok & Hext & Hh) _ IH];
    intros rest output st Hlim Hfit.
  - exists output, st. cbn [map app List.length]. repeat split; auto; try lia.
    exists []. rewrite app_nil_r. split; [reflexivity | constructor].
  - cbn [map app]. cbn [List.length] in *.
    rewrite Nat2Z.inj_succ, Z.mul_succ_l in *.
    pose proof (byteLength_nonneg content) as Hc.
    assert (Hh0 : 0 <= h) by (rewrite <- Hh; apply byteLength_nonneg).
    rewrite (entries_text_fits _ _ _ _ _ _ content); auto.
    + match goal with
      | |- context [entries _ _ _ _ _ ?o ?s] =>
          destruct (IH rest o s) as (output' & st' & Heq & Hlim' & Hsize & new
                                     & Hhist & Hunits)
      end.
      * exact Hlim.
      * cbn [currentSize emit]. rewrite Hh. lia.
      * exists output', st'. split; [exact Heq|]. split; [exact Hlim'|].
        split; [rewrite Hsize; cbn [currentSize emit]; rewrite Hh; lia|].
        eexists. split.
        -- rewrite Hhist. cbn [history emit]. rewrite <- app_assoc.
           reflexivity.
        -- constructor; [|exact Hunits].
           rewrite byteLength_fileBlock, Hh. lia.
    + apply isBinaryFile_text; assumption.
    + rewrite Hh. rewrite Z.gtb_ltb. apply Z.ltb_ge.
      assert (0 <= Z.of_nat (List.length names)
                   * (h + byteLength content)) by nia.
      lia.
Qed.

Lemma eligible_file cwd ig dirPath name data :
  eligible cwd ig dirPath name (File data)
  = eligible cwd ig dirPath name (File None).
Proof. reflexivity. Qed.

Lemma textNames_ok :
  Forall (fun name =>
            eligible [lit "r"] noRules [lit "r"] name (File None) = true
            /\ has binaryExts
                 (toLowerCase
                    (extname (Path.toStr (Path.join [lit "r"] name))))
               = false
            /\ byteLength
                 (fileHeaderOf
                    (Path.relative [lit "r"] (Path.join [lit "r"] name)))
               = 24) (map textName (seq 0 174)).
Proof.
  apply Forall_forall. intros name Hin.
  assert (Hall : forallb
            (fun name =>
               eligible [lit "r"] noRules [lit "r"] name (File None)
               && negb (has binaryExts
                          (toLowerCase
                             (extname
                                (Path.toStr (Path.join [lit "r"] name)))))
               && (byteLength
                     (fileHeaderOf
                        (Path.relative [lit "r"] (Path.join [lit "r"] name)))
                   =? 24))
            (map textName (seq 0 174)) = true)
    by (vm_compute; reflexivity).
  rewrite forallb_forall in Hall. specialize (Hall name Hin).
  apply andb_prop in Hall. destruct Hall as [Hall Hsize].
  apply andb_prop in Hall. destruct Hall as [Hok Hext].
  apply negb_true_iff in Hext. apply Z.eqb_eq in Hsize. auto.
Qed.

Lemma truthy_fileBlock (output p content : jsstring) :
  truthy (output ++ fileHeaderOf p ++ content) = true.
Proof. destruct output; reflexivity. Qed.

Lemma truthy_folderBlock (output p sub : jsstring) :
  truthy (output ++ folderHeaderOf p ++ sub) = true.
Proof. destruct output; reflexivity. Qed.

Lemma crowded_run (data bottom : buffer) (content below : jsstring) :
  Forall (fun b => isTextByte b = true) data ->
  toString data = Some content ->
  byteLength content = 30000 ->
  Forall (fun b => isTextByte b = true) bottom ->
  toString bottom = Some below ->
  byteLength below = 14821 ->
  let run := final (main (plainWorld (crowdedTree data bottom))) in
  currentSize run = MAX_SIZE + 30975
  /\ limitReached run = false
  /\ unitsWithin 30024 (history run).
Proof.
  intros Htext Hdec Hc Htext' Hdec' Hb. cbv zeta.
  rewrite main_confirmed by (vm_compute; reflexivity).
  rewrite proceed_final.
  change (loadGitIgnoreRules _ _) with noRules.
  unfold crowdedTree, textFiles.
  cbn [plainWorld cwd tree processDirectory].
  match goal with
  | |- context [entries ?c ?i ?s ?d (_ ++ ?rest) ?o ?st] =>
      destruct (entries_text_files c i s d data content 24
                  (map textName (seq 0 174)) textNames_ok Htext Hdec
                  rest o st)
        as (output' & st' & Heq & Hlim & Hcur & new & Hhist & Hunits);
      [ reflexivity
      | cbn [currentSize emit record initial]; rewrite Hc, length_map,
          length_seq; vm_compute; discriminate
      | ]
  end.
  rewrite Heq. clear Heq.
  rewrite length_map, length_seq in Hcur.
  cbn [nest].
  do 15 (rewrite entries_dir_enter by decide_with Hlim Hcur Hc Hb;
         cbn [processDirectory]).
  rewrite (entries_text_fits _ _ _ _ _ _ below);
    [ | decide_with Hlim Hcur Hc Hb | decide_with Hlim Hcur Hc Hb
      | apply isBinaryFile_text; [vm_compute; reflexivity | exact Htext']
      | exact Hdec'
      | decide_with Hlim Hcur Hc Hb ].
  cbn [entries]. rewrite truthy_fileBlock. cbn [entries].
  do 14 (rewrite truthy_folderBlock; cbn [entries]).
  cbn [snd].
  cbn [history limitReached currentSize emit record].
  rewrite Hlim, Hcur, Hhist, Hc, Hb.
  cbn [history limitReached currentSize emit record initial].
  split; [vm_compute; reflexivity|]. split; [reflexivity|].
  unfold unitsWithin.
  repeat (apply Forall_app; split);
    try (constructor; [|constructor]); try exact I.
  all: try (rewrite Hc in Hunits; exact Hunits).
  all: try (rewrite byteLength_fileBlock, Hb).
  all: try (apply Z.leb_le; vm_compute; reflexivity).
  all: try constructor.
Qed.

(* ================================================================== *)
(** ** The budget *)
(* ================================================================== *)

(** The counter never decreases over a call of the walker. *)
Lemma currentSize_monotone cwd ig dirPath n st :
  limitReached st = false ->
  currentSize st <= currentSize (snd (processDirectory cwd ig dirPath n st)).
Proof.
  intros Hlim. eapply steps_size_monotone.
  apply processDirectory_steps, Hlim.
Qed.

(** C3 fails on the code.  In [/r], the file [a/b/f.txt] holds 5242829
    bytes of text: with the root header and the file header the counter
    is exactly at the cap once the file is appended.  The headers of
    [a/b] and of [a] were checked before their folder was walked, and
    are added after it: the counter ends 40 bytes above the cap, more
    than the 19 bytes of the unit appended last and more than either
    header, and the flag is never set.  In a second run, 174 files of
    30000 bytes are followed by fifteen nested folders with names of
    255 letters around a file of 14821 bytes: the counter ends 30975
    bytes above the cap, and no unit of the run has more than 30024
    bytes. *)
Theorem currentSize_exceeds_cap_by_nested_headers :
  let run := final (main (plainWorld (deepTree (xs 5242829)))) in
  let crowded :=
    final (main (plainWorld (crowdedTree (xs 30000) (xs 14821)))) in
  (sizesOf (history run) = [26; MAX_SIZE; MAX_SIZE + 21; MAX_SIZE + 40]
   /\ currentSize run = MAX_SIZE + 40
   /\ limitReached run = false
   /\ byteLength (folderHeaderOf (lit "a/b")) = 21
   /\ byteLength (folderHeaderOf (lit "a")) = 19)
  /\ (currentSize crowded = MAX_SIZE + 30975
      /\ limitReached crowded = false
      /\ unitsWithin 30024 (history crowded)).
Proof.
  cbv zeta. split.
  - destruct (deep_run (xs 5242829) (xs 5242829)) as (Hsizes & Hlim & Hsize).
    + apply isBinaryFile_text; [vm_compute; reflexivity | apply xs_text].
    + apply xs_toString. unfold maxStringLength. lia.
    + apply xs_size. lia.
    + rewrite Hsizes, Hlim, Hsize. repeat split; vm_compute; reflexivity.
  - apply (crowded_run _ _ (xs 30000) (xs 14821)); auto using xs_text;
      try (apply xs_toString; unfold maxStringLength; lia);
      apply xs_size; lia.
Qed.

(* ================================================================== *)
(** ** Once the limit is reached *)
(* ================================================================== *)

Lemma processDirectory_saturated cwd ig dirPath n st :
  limitReached st = true ->
  processDirectory cwd ig dirPath n st
  = (Some [], record (ReadDir dirPath) st).
Proof.
  intros Hlim. destruct n as [[files|]|data| | |]; try reflexivity.
  cbn [processDirectory]. apply entries_limit. exact Hlim.
Qed.





(* ================================================================== *)
(** ** A text file that does not fit *)
(* ================================================================== *)

(** A run in [/r] whose only file is a text file too long to decode. *)
Lemma undecodable_run (data : buffer) :
  isBinaryFile data (lit "/r/big.txt") = false ->
  toString data = None ->
  main (plainWorld (Dir (Some [(lit "big.txt", File (Some data))])))
  = {| effects := [Question NoRepositoryContinue;
                   ConsoleError UnexpectedError; Close];
       final := record (ReadDir [lit "r"])
                  (emit RootHeader [] (rootHeaderOf (lit "r")) 26 initial);
       exitCode := 1 |}.
Proof.
  intros Htext Hdec.
  rewrite main_confirmed by (vm_compute; reflexivity).
  unfold proceed.
  change (loadGitIgnoreRules _ _) with noRules.
  cbn [plainWorld cwd tree processDirectory].
  rewrite entries_text_throws;
    [reflexivity | reflexivity | reflexivity | exact Htext
    | vm_compute; reflexivity | exact Hdec].
Qed.

(** C4 fails on the code.  In [/r], the text file [big.txt] holds one
    letter more than the longest string of the platform.  Its header
    fits the budget, and header and content together are far above it.
    The walker decodes the buffer before it compares sizes:
    [buffer.toString] throws, and no [try] is around it.  The exception
    leaves the loop with the flag unset, then the walk and [main]; the
    handler of [main().catch] reports an unexpected error, and the
    process exits with status 1 and nothing handed to the clipboard. *)
Theorem oversized_text_file_throws :
  let big := xs (maxStringLength + 1) in
  let listing := [(lit "big.txt", File (Some big))] in
  let run := main (plainWorld (Dir (Some listing))) in
  (isBinaryFile big (lit "/r/big.txt") = false
   /\ byteLength (fileHeaderOf (lit "big.txt")) = 23
   /\ byteLength (decodeUtf8 big) = 536870889
   /\ toString big = None)
  /\ (forall output st,
        limitReached st = false ->
        currentSize st + 23 <= MAX_SIZE ->
        entries [lit "r"] noRules (processDirectory [lit "r"] noRules)
          [lit "r"] listing output st
        = (None, st))
  /\ effects run
     = [Question NoRepositoryContinue; ConsoleError UnexpectedError; Close]
  /\ delivered (effects run) = None
  /\ exitCode run = 1
  /\ limitReached (final run) = false
  /\ history (final run)
     = [Emit RootHeader [] (rootHeaderOf (lit "r")) 26; ReadDir [lit "r"]].
Proof.
  cbv zeta.
  assert (Htext : isBinaryFile (xs (maxStringLength + 1)) (lit "/r/big.txt")
                  = false)
    by (apply isBinaryFile_text; [vm_compute; reflexivity | apply xs_text]).
  assert (Hdec : toString (xs (maxStringLength + 1)) = None)
    by (apply xs_toString_throws; lia).
  split; [|split].
  - split; [exact Htext|]. split; [vm_compute; reflexivity|].
    split; [|exact Hdec].
    rewrite (decode_ascii (xs (maxStringLength + 1))
               (xs_ascii (maxStringLength + 1))).
    rewrite (xs_size (maxStringLength + 1)) by (unfold maxStringLength; lia).
    reflexivity.
  - intros output st Hlim Hfit.
    apply entries_text_throws;
      [exact Hlim | rewrite eligible_file; vm_compute; reflexivity
      | exact Htext | | exact Hdec].
    change (byteLength _) with 23.
    rewrite Z.gtb_ltb. apply Z.ltb_ge. lia.
  - rewrite (undecodable_run _ Htext Hdec). repeat split.
Qed.

(** X10.  A text file short enough to be decoded, whose header and
    content together would take the counter over the budget, sets the
    flag and leaves everything else as it was: the loop returns its
    output unchanged, the counter is unchanged, and the only event is
    the setting of the flag.  This holds at every level, whatever the
    loop does on directories. *)
Theorem oversized_text_file_is_dropped cwd ig self dirPath file
    (buffer : buffer) (content : jsstring) rest output st :
  limitReached st = false ->
  eligible cwd ig dirPath file (File (Some buffer)) = true ->
  isBinaryFile buffer (Path.toStr (Path.join dirPath file)) = false ->
  toString buffer = Some content ->
  currentSize st
  + (byteLength (fileHeaderOf (Path.relative cwd (Path.join dirPath file)))
     + byteLength content)
  > MAX_SIZE ->
  let result :=
    entries cwd ig self dirPath ((file, File (Some buffer)) :: rest)
      output st in
  content = decodeUtf8 buffer
  /\ fst result = Some output
  /\ limitReached (snd result) = true
  /\ currentSize (snd result) = currentSize st
  /\ history (snd result) = history st ++ [LimitSet].
Proof.
  intros Hlim Hok Htext Hdec Hover. cbv zeta.
  rewrite (entries_text_over _ _ _ _ _ _ content) by assumption.
  repeat split. apply toString_Some, Hdec.
Qed.

(** Thirty bytes below the budget, [c.txt] with its 25-byte header and
    11 bytes of text does not fit. *)
Lemma oversized_text_file_is_dropped_witness :
  let result :=
    entries [lit "r"] noRules (processDirectory [lit "r"] noRules)
      [lit "sub"; lit "r"] oneFolder (lit "kept") nearCap in
  lit "hello world" = decodeUtf8 (lit "hello world")
  /\ fst result = Some (lit "kept")
  /\ limitReached (snd result) = true
  /\ currentSize (snd result) = currentSize nearCap
  /\ history (snd result) = history nearCap ++ [LimitSet].
Proof.
  apply (oversized_text_file_is_dropped [lit "r"] noRules
           (processDirectory [lit "r"] noRules) [lit "sub"; lit "r"]
           (lit "c.txt") (lit "hello world") (lit "hello world") []
           (lit "kept") nearCap);
    vm_compute; reflexivity.
Defined.

(* ================================================================== *)
(** ** Folder headers *)
(* ================================================================== *)

Lemma committed_quiet (new : list event) :
  Forall (fun e => isEmit e = false) new -> committed new = 0.
Proof.
  induction 1 as [|[ | |k p text n] new He _ IH]; cbn [committed];
    try exact IH; [reflexivity | discriminate He].
Qed.

(** A call that returns no text has appended nothing and has left the
    counter where it was. *)
Lemma processDirectory_empty cwd ig dirPath n st :
  limitReached st = false ->
  fst (processDirectory cwd ig dirPath n st) = Some [] ->
  currentSize (snd (processDirectory cwd ig dirPath n st)) = currentSize st
  /\ Forall (fun e => isEmit e = false)
       (eventsSince st (snd (processDirectory cwd ig dirPath n st))).
Proof.
  intros Hlim Hempty.
  destruct (processDirectory_renders cwd ig n dirPath st) as (new & Hh & Hr).
  rewrite (eventsSince_app _ _ new Hh).
  pose proof (renders_empty_quiet new (Hr [] Hempty)) as Hquiet.
  split; [|exact Hquiet].
  destruct (steps_history ig _ _ (processDirectory_steps cwd ig n dirPath
                                    st Hlim))
    as (new' & Hh' & Hsize & _).
  assert (new' = new) as ->.
  { rewrite Hh in Hh'. apply app_inv_head in Hh'. congruence. }
  rewrite Hsize, (committed_quiet new Hquiet). lia.
Qed.

(** The text a loop returns begins with the text it was entered
    with. *)
Lemma entries_extends cwd ig dirPath files output st out :
  fst (entries cwd ig (processDirectory cwd ig) dirPath files output st)
  = Some out ->
  exists suffix, out = output ++ suffix.
Proof.
  intros Hout.
  destruct (entries_renders cwd ig (processDirectory cwd ig) dirPath files)
    with (output := output) (st := st) as (new & _ & Ho).
  - apply Forall_forall. intros e _ p st0.
    apply processDirectory_renders.
  - destruct (Ho out Hout) as (suffix & -> & _). exists suffix. reflexivity.
Qed.

(** A loop over entries that all fail the filters returns at once. *)
Lemma entries_all_skipped cwd ig self pruned dirPath files :
  pruneEntries cwd ig pruned dirPath files = [] ->
  forall output st,
    entries cwd ig self dirPath files output st = (Some output, st).
Proof.
  induction files as [|[file child] rest IH]; intros Hnone output st;
    [reflexivity|].
  cbn [pruneEntries] in Hnone.
  destruct (eligible cwd ig dirPath file child) eqn:Hok;
    [discriminate Hnone|].
  rewrite entries_skip by exact Hok.
  destruct (limitReached st); [reflexivity | apply IH, Hnone].
Qed.

(** A loop over entries that have no text returns what it was entered
    with: no decoding happens in it, so no exception leaves it. *)
Lemma entries_hollow cwd ig self sub dirPath files :
  Forall (fun e => forall p st,
            sub p (snd e) = [] ->
            exists st1, self p (snd e) st = (Some [], st1)) files ->
  renderEntries cwd ig sub dirPath files = [] ->
  forall output st,
    exists st', entries cwd ig self dirPath files output st = (Some output, st').
Proof.
  induction 1 as [|[file child] rest Hchild _ IH]; intros Hempty output st.
  - exists st. reflexivity.
  - cbn [renderEntries] in Hempty. apply app_eq_nil in Hempty.
    destruct Hempty as [Hentry Hrest]. specialize (IH Hrest).
    cbn [snd] in Hchild.
    destruct (limitReached st) eqn:Hlim.
    { exists st. apply entries_limit, Hlim. }
    destruct (eligible cwd ig dirPath file child) eqn:Hok.
    2:{ rewrite entries_skip by exact Hok. rewrite Hlim. apply IH. }
    unfold renderEntry in Hentry. rewrite Hok in Hentry.
    destruct child as [listing|[buffer|]| | |].
    + rewrite entries_dir by assumption. cbv zeta.
      destruct (_ >? MAX_SIZE); [eexists; reflexivity|].
      assert (Hsub : sub (Path.join dirPath file) (Dir listing) = []).
      { cbv zeta in Hentry.
        destruct (sub (Path.join dirPath file) (Dir listing)) as [|c t];
          [reflexivity|].
        cbn [truthy] in Hentry.
        destruct (folderHeader_shape
                    (relative cwd (Path.join dirPath file))) as [body Hb].
        rewrite Hb in Hentry. discriminate Hentry. }
      destruct (Hchild (Path.join dirPath file) st Hsub) as [st1 ->].
      cbn [truthy]. apply IH.
    + exfalso.
      destruct (fileHeader_shape (relative cwd (Path.join dirPath file)))
        as [body Hb].
      destruct (isBinaryFile buffer _); unfold binaryNoteOf in Hentry;
        rewrite Hb in Hentry; discriminate Hentry.
    + cbn [entries]. rewrite Hlim. pass_filters Hok.
      destruct (_ >? MAX_SIZE); [eexists; reflexivity | apply IH].
    + cbn [entries]. rewrite Hlim. pass_filters Hok. apply IH.
    + cbn [entries]. rewrite Hlim. pass_filters Hok. apply IH.
    + cbn [entries]. rewrite Hlim. pass_filters Hok. apply IH.
Qed.

Lemma processDirectory_hollow cwd ig (n : node) :
  forall dirPath st,
    render cwd ig dirPath n = [] ->
    exists st', processDirectory cwd ig dirPath n st = (Some [], st').
Proof.
  induction n as [files IH| | | | |] using node_nested_ind;
    intros dirPath st Hempty; cbn [processDirectory];
    try (eexists; reflexivity).
  cbn [render] in Hempty.
  apply (entries_hollow cwd ig (processDirectory cwd ig) (render cwd ig)
           dirPath files IH Hempty).
Qed.

(** C7.  When the walker goes into a directory, the header line
    [\n--- Folder: <relative path> ---\n] is appended, in front of what
    the walk of the directory returned, exactly when that is not empty:
    the text the loop returns then holds the line and the folder's text
    after what it held before.  When the walk returned the empty text,
    the loop goes on with its output as it was, and the walk of the
    directory has appended nothing and has not moved the counter.  When
    an exception ended the walk, it ends the loop too.  A directory
    whose entries all fail the filters of the loop, and more generally a
    directory with no text at all below it, returns the empty text. *)
Theorem folder_header_iff_nonempty cwd ig dirPath file listing rest
    output st :
  let relativePath := Path.relative cwd (Path.join dirPath file) in
  let headerLine :=
    nl ++ lit "--- Folder: " ++ relativePath ++ lit " ---" ++ nl in
  let walk :=
    processDirectory cwd ig (Path.join dirPath file) (Dir listing) st in
  let loop := entries cwd ig (processDirectory cwd ig) dirPath in
  limitReached st = false ->
  eligible cwd ig dirPath file (Dir listing) = true ->
  (currentSize st + len headerLine >? MAX_SIZE) = false ->
  (forall sub,
     fst walk = Some sub -> sub <> [] ->
     loop ((file, Dir listing) :: rest) output st
     = loop rest (output ++ headerLine ++ sub)
         (emit FolderHeader relativePath headerLine (byteLength headerLine)
            (snd walk))
     /\ forall out,
          fst (loop ((file, Dir listing) :: rest) output st) = Some out ->
          exists after, out = output ++ headerLine ++ sub ++ after)
  /\ (fst walk = Some [] ->
      loop ((file, Dir listing) :: rest) output st
      = loop rest output (snd walk)
      /\ currentSize (snd walk) = currentSize st
      /\ Forall (fun e => isEmit e = false) (eventsSince st (snd walk)))
  /\ (fst walk = None ->
      loop ((file, Dir listing) :: rest) output st = (None, snd walk))
  /\ (render cwd ig (Path.join dirPath file) (Dir listing) = [] ->
      fst walk = Some [])
  /\ (prune cwd ig (Path.join dirPath file) (Dir listing) = Dir (Some []) ->
      walk = (Some [], record (ReadDir (Path.join dirPath file)) st)).
Proof.
  cbv zeta. intros Hlim Hok Hfit.
  change (nl ++ lit "--- Folder: "
          ++ relative cwd (Path.join dirPath file) ++ lit " ---" ++ nl)
    with (folderHeaderOf (relative cwd (Path.join dirPath file))) in *.
  rewrite entries_dir_enter by assumption.
  split; [|split; [|split; [|split]]].
  - intros sub Hsub Hne.
    destruct (processDirectory cwd ig (Path.join dirPath file)
                (Dir listing) st) as [folderOutput st1].
    cbn [fst snd] in *. subst folderOutput.
    destruct sub as [|c sub]; [congruence|]. cbn [truthy].
    split; [reflexivity|].
    intros out Hout. apply entries_extends in Hout.
    destruct Hout as [suffix ->]. exists suffix.
    rewrite <- !app_assoc. reflexivity.
  - intros Hempty.
    destruct (processDirectory_empty cwd ig (Path.join dirPath file)
                (Dir listing) st Hlim Hempty) as [Hsize Hquiet].
    destruct (processDirectory cwd ig (Path.join dirPath file)
                (Dir listing) st) as [folderOutput st1].
    cbn [fst snd] in *. subst folderOutput. auto.
  - intros Hthrown.
    destruct (processDirectory cwd ig (Path.join dirPath file)
                (Dir listing) st) as [folderOutput st1].
    cbn [fst snd] in *. subst folderOutput. reflexivity.
  - intros Hnone.
    destruct (processDirectory_hollow cwd ig (Dir listing)
                (Path.join dirPath file) st Hnone) as [st' ->].
    reflexivity.
  - intros Hpruned. destruct listing as [files|]; [|discriminate Hpruned].
    cbn [prune] in Hpruned. injection Hpruned as Hpruned.
    cbn [processDirectory].
    apply (entries_all_skipped _ _ _ _ _ _ Hpruned).
Qed.

(** In [/r]: the folder [sub] with one text file gets its header line;
    the folder [hollow], with a dotfile, a link and an empty folder,
    gets none. *)
Lemma folder_header_iff_nonempty_witness :
  fst (entries [lit "r"] noRules (processDirectory [lit "r"] noRules)
         [lit "r"] [(lit "sub", Dir (Some oneFolder))] [] initial)
  = Some (nl ++ lit "--- Folder: sub ---" ++ nl
          ++ nl ++ lit "--- File: sub/c.txt ---" ++ nl
          ++ lit "hello world")
  /\ fst (entries [lit "r"] noRules (processDirectory [lit "r"] noRules)
            [lit "r"] [(lit "hollow", Dir (Some hollowFolder))] [] initial)
     = Some [].
Proof.
  pose proof (folder_header_iff_nonempty [lit "r"] noRules [lit "r"]
                (lit "sub") (Some oneFolder) [] [] initial
                eq_refl eq_refl eq_refl) as Hsub.
  pose proof (folder_header_iff_nonempty [lit "r"] noRules [lit "r"]
                (lit "hollow") (Some hollowFolder) [] [] initial
                eq_refl eq_refl eq_refl) as Hhollow.
  cbv zeta in Hsub, Hhollow.
  split.
  - destruct Hsub as [Hsub _].
    destruct (Hsub (nl ++ lit "--- File: sub/c.txt ---" ++ nl
                    ++ lit "hello world")) as [Heq _].
    + vm_compute. reflexivity.
    + discriminate.
    + rewrite Heq. vm_compute. reflexivity.
  - destruct Hhollow as (_ & Hempty & _ & Hnone & _).
    destruct (Hempty (Hnone eq_refl)) as (Heq & _ & _).
    rewrite Heq. vm_compute. reflexivity.
Defined.

(* ================================================================== *)
(** ** A run that goes on to the walk *)
(* ================================================================== *)

(** What [proceed] leaves: the root header and then the units of the
    walk in the history; when the walk returns, the text of those units
    after the root header on the clipboard; when an exception ends it,
    the report of an unexpected error and status 1. *)
Lemma proceed_run (w : world) gitRoot asked :
  let ig :=
    loadGitIgnoreRules w (match gitRoot with Some r => r | None => cwd w end)
  in
  let rootHeader := rootHeaderOf (Path.basename (cwd w)) in
  let st0 := emit RootHeader [] rootHeader (byteLength rootHeader) initial in
  let walk := processDirectory (cwd w) ig (cwd w) (tree w) st0 in
  exists units,
    history (final (proceed w gitRoot asked))
    = Emit RootHeader [] rootHeader (byteLength rootHeader) :: units
    /\ final (proceed w gitRoot asked) = snd walk
    /\ steps ig st0 (final (proceed w gitRoot asked))
    /\ ((exists walked,
           fst walk = Some walked
           /\ renders units walked
           /\ exitCode (proceed w gitRoot asked) = 0
           /\ effects (proceed w gitRoot asked)
              = asked ++ [ClipboardWrite (rootHeader ++ walked)]
                ++ match clipboard w with
                   | None =>
                       [ConsoleLog
                          (if limitReached (snd walk) then OutputTruncated
                           else CopiedToClipboard)]
                   | Some err => [ConsoleError (ClipboardFailed err)]
                   end
                ++ [Close])
        \/ (fst walk = None
            /\ exitCode (proceed w gitRoot asked) = 1
            /\ effects (proceed w gitRoot asked)
               = asked ++ [ConsoleError UnexpectedError; Close])).
Proof.
  cbv zeta. unfold proceed.
  set (ig := loadGitIgnoreRules w _).
  set (rootHeader := rootHeaderOf (basename (cwd w))).
  set (st0 := emit RootHeader [] rootHeader (byteLength rootHeader) initial).
  destruct (processDirectory_renders (cwd w) ig (tree w) (cwd w) st0)
    as (units & Hh & Hr).
  pose proof (processDirectory_steps (cwd w) ig (tree w) (cwd w) st0 eq_refl)
    as Hsteps.
  destruct (processDirectory (cwd w) ig (cwd w) (tree w) st0)
    as [[walked|] st];
    cbn [fst snd final effects exitCode] in *;
    exists units; (split; [exact Hh|]); (split; [reflexivity|]);
    (split; [exact Hsteps|]).
  - left. exists walked. auto.
  - right. auto.
Qed.

Lemma rootHeader_size (name walked : jsstring) :
  byteLength (rootHeaderOf name ++ walked)
  = byteLength (rootHeaderOf name) + byteLength walked.
Proof.
  unfold rootHeaderOf.
  rewrite (app_assoc _ (lit " ---") nl), (app_assoc _ _ nl).
  apply byteLength_after_nl.
Qed.

Lemma delivered_app (asked l : list effect) :
  delivered asked = None -> delivered (asked ++ l) = delivered l.
Proof.
  induction asked as [|[m|m|m|t|] asked IH]; intros H;
    cbn [app delivered] in *; auto; discriminate H.
Qed.

Lemma proceed_accounting (w : world) gitRoot asked :
  delivered asked = None ->
  accounted 0 (history (final (proceed w gitRoot asked)))
  /\ currentSize (final (proceed w gitRoot asked))
     = committed (history (final (proceed w gitRoot asked)))
  /\ forall text,
       delivered (effects (proceed w gitRoot asked)) = Some text ->
       byteLength text = currentSize (final (proceed w gitRoot asked)).
Proof.
  intros Hasked.
  destruct (proceed_run w gitRoot asked)
    as (units & Hh & _ & Hsteps & Hcases).
  destruct (steps_history _ _ _ Hsteps)
    as (new & Hh' & Hsize & Hacc & _).
  cbn [history currentSize emit initial app] in Hh', Hsize, Hacc.
  assert (new = units) as ->.
  { rewrite Hh in Hh'. injection Hh' as Hh'. congruence. }
  rewrite Hh, Hsize. cbn [accounted committed].
  split; [split; [reflexivity | exact Hacc]|].
  split; [lia|].
  intros text.
  destruct Hcases as [(walked & _ & Hr & _ & Heff)|(_ & _ & Heff)];
    rewrite Heff, delivered_app by exact Hasked.
  - intros Heq.
    match type of Heq with
    | delivered ([ClipboardWrite ?x] ++ ?r) = _ =>
        change (delivered ([ClipboardWrite x] ++ r)) with (Some x) in Heq
    end.
    apply (f_equal (fun o => match o with
                             | Some t => byteLength t
                             | None => 0
                             end)) in Heq.
    cbv beta iota in Heq. rewrite <- Heq.
    rewrite rootHeader_size, (renders_size units walked Hr). lia.
  - cbn [delivered]. discriminate.
Qed.

(** C9.  After every append, [currentSize] is the UTF-8 size of all the
    text appended so far, from the root header on; at the end of the
    run it is the size of the text committed by the whole history, and
    the size of the text handed to the clipboard, whether or not the
    run was truncated. *)
Theorem currentSize_counts_committed_text (w : world) :
  accounted 0 (history (final (main w)))
  /\ currentSize (final (main w)) = committed (history (final (main w)))
  /\ forall text,
       delivered (effects (main w)) = Some text ->
       byteLength text = currentSize (final (main w)).
Proof.
  unfold main. destruct (isGitRepo w (cwd w)) as [r|].
  - apply proceed_accounting. reflexivity.
  - destruct (negb _).
    + cbn. repeat split. intros text H. discriminate H.
    + apply proceed_accounting. reflexivity.
Qed.

(** The run of the ignore-file example: 84 bytes on the clipboard, and
    84 in the counter. *)
Lemma currentSize_counts_committed_text_witness :
  exists text,
    delivered (effects (main buildIgnored)) = Some text
    /\ byteLength text = 84
    /\ currentSize (final (main buildIgnored)) = 84.
Proof.
  destruct (delivered (effects (main buildIgnored))) as [text|] eqn:Hd;
    [|vm_compute in Hd; discriminate Hd].
  exists text. split; [reflexivity|].
  rewrite (proj2 (proj2 (currentSize_counts_committed_text buildIgnored))
             text Hd).
  split; vm_compute; reflexivity.
Defined.

(* ================================================================== *)
(** ** Ignore rules *)
(* ================================================================== *)

Lemma startsWith_app (a x : jsstring) : startsWith a (a ++ x) = true.
Proof.
  induction a as [|c a IH]; [destruct x; reflexivity|].
  cbn [app startsWith]. rewrite Z.eqb_refl. exact IH.
Qed.

Lemma joinWith_app_prefix (sep : jsstring) (l1 l2 : list jsstring) :
  exists rest, joinWith sep (l1 ++ l2) = joinWith sep l1 ++ rest.
Proof.
  induction l1 as [|x l1 IH]; [exists (joinWith sep l2); reflexivity|].
  destruct l1 as [|y l1].
  - destruct l2 as [|z l2]; cbn [app joinWith].
    + exists []. rewrite app_nil_r. reflexivity.
    + eexists. reflexivity.
  - destruct IH as [rest IH]. exists rest.
    change (joinWith sep ((x :: y :: l1) ++ l2))
      with (x ++ sep ++ joinWith sep ((y :: l1) ++ l2)).
    rewrite IH.
    change (joinWith sep (x :: y :: l1))
      with (x ++ sep ++ joinWith sep (y :: l1)).
    rewrite <- !app_assoc. reflexivity.
Qed.

(** The string of a directory starts with the string of each of its
    ancestors. *)
Lemma toStr_below (below root : path) :
  startsWith (Path.toStr root) (Path.toStr (below ++ root)) = true.
Proof.
  unfold Path.toStr. rewrite rev_app_distr.
  destruct (joinWith_app_prefix [slash] (rev root) (rev below))
    as [rest ->].
  rewrite app_assoc. apply startsWith_app.
Qed.

Lemma path_eqb_length (a b : path) :
  Path.eqb a b = true -> List.length a = List.length b.
Proof.
  revert b; induction a as [|x a IH]; intros [|y b]; cbn [Path.eqb];
    try discriminate; [reflexivity|].
  intros H. apply andb_prop in H. destruct H as [_ H].
  cbn [List.length]. f_equal. apply IH, H.
Qed.

Lemma path_eqb_refl (a : path) : Path.eqb a a = true.
Proof.
  induction a as [|x a IH]; [reflexivity|].
  cbn [Path.eqb]. rewrite str_eqb_refl. exact IH.
Qed.

(** The loader always reaches the root it is given, when the working
    directory lies at or below it, and adds the ignore-file found
    there when it can be read. *)
Lemma loadRulesFrom_root (w : world) (root : path) (rules : jsstring) :
  existsSync w (Path.join root (lit ".gitignore")) = true ->
  readFileSync w (Path.join root (lit ".gitignore")) = Some rules ->
  forall below added, In rules (loadRulesFrom w root (below ++ root) added).
Proof.
  intros Hex Hread.
  assert (Hself : forall p, startsWith (Path.toStr p) (Path.toStr p) = true)
    by (intros p; exact (toStr_below [] p)).
  assert (Hroot : forall added, In rules (loadRulesFrom w root root added)).
  { intros added. destruct root as [|c parent];
      cbn [loadRulesFrom]; rewrite Hself, Hex, Hread, path_eqb_refl;
      apply in_or_app; right; left; reflexivity. }
  induction below as [|c below IH]; intros added; [apply Hroot|].
  change ((c :: below) ++ root) with (c :: (below ++ root)).
  cbn [loadRulesFrom].
  pose proof (toStr_below (c :: below) root) as Hprefix.
  cbn [app] in Hprefix. rewrite Hprefix.
  destruct (Path.eqb (c :: below ++ root) root) eqn:Heq.
  - apply path_eqb_length in Heq. cbn [List.length] in Heq.
    rewrite length_app in Heq. lia.
  - apply IH.
Qed.

Lemma ancestors_suffix (dir d : path) :
  In d (ancestors dir) -> exists below, dir = below ++ d.
Proof.
  induction dir as [|c parent IH]; cbn [ancestors In].
  - intros [<-|[]]. exists []. reflexivity.
  - intros [<-|H]; [exists []; reflexivity|].
    destruct (IH H) as [below ->]. exists (c :: below). reflexivity.
Qed.

(** The root the rules are loaded against is the working directory or
    one of its ancestors. *)
Lemma effective_root_above (w : world) :
  exists below,
    cwd w
    = below ++ match isGitRepo w (cwd w) with
               | Some r => r
               | None => cwd w
               end.
Proof.
  destruct (isGitRepo w (cwd w)) as [r|] eqn:Hrepo.
  - apply ancestors_suffix.
    assert (H : forall dir d, isGitRepo w dir = Some d ->
                              In d (ancestors dir)).
    { clear. induction dir as [|c parent IH]; intros d Hd;
        [discriminate Hd|].
      rewrite isGitRepo_unfold in Hd.
      destruct (hasMarker w (c :: parent)).
      - injection Hd as <-. left. reflexivity.
      - right. apply IH, Hd. }
    apply H, Hrepo.
  - exists []. reflexivity.
Qed.

(** No unit is ever emitted for a path the rules ignore. *)
Lemma proceed_not_ignored (w : world) gitRoot asked :
  let ig :=
    loadGitIgnoreRules w (match gitRoot with Some r => r | None => cwd w end)
  in
  forall k p text n,
    In (Emit k p text n) (history (final (proceed w gitRoot asked))) ->
    p = [] \/ ig p = false.
Proof.
  cbv zeta. intros k p text n Hin.
  destruct (proceed_run w gitRoot asked) as (units & Hh & _ & Hsteps & _).
  destruct (steps_history _ _ _ Hsteps) as (new & Hh' & _ & _ & _ & _ & Hig).
  rewrite Hh' in Hin. cbn [history emit initial app] in Hin.
  destruct Hin as [Heq|Hin].
  - injection Heq as _ <- _ _. left. reflexivity.
  - right. rewrite Forall_forall in Hig. exact (Hig _ Hin).
Qed.

(* ================================================================== *)
(** * Further properties *)
(* ================================================================== *)

(* ================================================================== *)
(** ** A truncated output is the beginning of the full one *)
(* ================================================================== *)

Lemma entries_saturated_flag cwd ig self dirPath files output st :
  limitReached st = true ->
  limitReached (snd (entries cwd ig self dirPath files output st)) = true.
Proof. intros H. rewrite entries_limit by exact H. exact H. Qed.

(** An entry the filters let through and that is neither a directory
    nor a readable file: the loop goes on, after the header check for
    a file that cannot be read. *)
Lemma entries_plain cwd ig self dirPath file child rest output st :
  limitReached st = false ->
  eligible cwd ig dirPath file child = true ->
  match child with
  | Dir _ | File (Some _) => True
  | File None =>
      entries cwd ig self dirPath ((file, child) :: rest) output st
      = if currentSize st
           + byteLength
               (fileHeaderOf (Path.relative cwd (Path.join dirPath file)))
           >? MAX_SIZE
        then (Some output, setLimit st)
        else entries cwd ig self dirPath rest output st
  | _ =>
      entries cwd ig self dirPath ((file, child) :: rest) output st
      = entries cwd ig self dirPath rest output st
  end.
Proof.
  intros Hlim Hok. destruct child as [listing|[buffer|]| | |]; try exact I;
    cbn [entries]; rewrite Hlim; pass_filters Hok; reflexivity.
Qed.

Section Prefix.

Variable cwd : path.
Variable ig : jsstring -> bool.

Lemma entries_prefix dirPath files :
  Forall (fun e => beginsFullText cwd ig (snd e)) files ->
  forall output st out,
    fst (entries cwd ig (processDirectory cwd ig) dirPath files output st)
    = Some out ->
    exists delta,
      out = output ++ delta
      /\ (exists rest,
            renderEntries cwd ig (render cwd ig) dirPath files = delta ++ rest)
      /\ (limitReached st = false ->
          limitReached
            (snd (entries cwd ig (processDirectory cwd ig) dirPath files
                    output st)) = false ->
          delta = renderEntries cwd ig (render cwd ig) dirPath files).
Proof.
  assert (Hstop : forall fs output (st st' : state) out,
            limitReached st' = true ->
            fst (Some output, st') = Some out ->
            exists delta,
              out = output ++ delta
              /\ (exists rest,
                    renderEntries cwd ig (render cwd ig) dirPath fs
                    = delta ++ rest)
              /\ (limitReached st = false ->
                  limitReached (snd (Some output, st')) = false ->
                  delta = renderEntries cwd ig (render cwd ig) dirPath fs)).
  { intros fs output st st' out Hset Hout. exists []. cbn [fst snd] in *.
    injection Hout as <-.
    rewrite app_nil_r. split; [reflexivity|]. split; [eexists; reflexivity|].
    intros _ H. congruence. }
  (* going on to the rest with [extra] appended and the state [st2] *)
  assert (Hnext : forall file child rest output st st2 extra out,
            renderEntry cwd ig (render cwd ig) dirPath file child = extra ->
            (forall output st out,
               fst (entries cwd ig (processDirectory cwd ig) dirPath rest
                      output st) = Some out ->
               exists delta,
                 out = output ++ delta
                 /\ (exists more,
                       renderEntries cwd ig (render cwd ig) dirPath rest
                       = delta ++ more)
                 /\ (limitReached st = false ->
                     limitReached
                       (snd (entries cwd ig (processDirectory cwd ig) dirPath
                               rest output st)) = false ->
                     delta
                     = renderEntries cwd ig (render cwd ig) dirPath rest)) ->
            fst (entries cwd ig (processDirectory cwd ig) dirPath rest
                   (output ++ extra) st2) = Some out ->
            exists delta,
              out = output ++ delta
              /\ (exists more,
                    renderEntries cwd ig (render cwd ig) dirPath
                      ((file, child) :: rest) = delta ++ more)
              /\ (limitReached st = false ->
                  limitReached
                    (snd (entries cwd ig (processDirectory cwd ig) dirPath
                            rest (output ++ extra) st2)) = false ->
                  delta
                  = renderEntries cwd ig (render cwd ig) dirPath
                      ((file, child) :: rest))).
  { intros file child rest output st st2 extra out Hextra IH Hret.
    destruct (IH (output ++ extra) st2 out Hret)
      as (delta & Hout & [more Hmore] & Hfull).
    destruct (Bool.bool_dec (limitReached st2) true) as [Hst2|Hst2];
      [|apply not_true_is_false in Hst2].
    all: exists (extra ++ delta).
    all: cbn [renderEntries]; rewrite Hextra.
    all: (split; [rewrite Hout, app_assoc; reflexivity|]).
    all: (split; [exists more; rewrite Hmore, app_assoc; reflexivity|]).
    all: intros _ Hend.
    - rewrite entries_saturated_flag in Hend by exact Hst2. discriminate Hend.
    - rewrite (Hfull Hst2 Hend). reflexivity. }
  induction 1 as [|[file child] rest Hchild _ IH]; intros output st out.
  - cbn [entries fst snd renderEntries]. intros Hout; injection Hout as <-.
    exists []. rewrite app_nil_r.
    split; [reflexivity|]. split; [exists []; reflexivity | reflexivity].
  - cbn [snd] in Hchild.
    destruct (Bool.bool_dec (limitReached st) true) as [Hlim|Hlim].
    { rewrite entries_limit by exact Hlim. apply (Hstop _ _ st st out Hlim). }
    apply not_true_is_false in Hlim.
    destruct (eligible cwd ig dirPath file child) eqn:Hok.
    2:{ replace (entries cwd ig (processDirectory cwd ig) dirPath
                   ((file, child) :: rest) output st)
          with (entries cwd ig (processDirectory cwd ig) dirPath rest
                  output st)
          by (rewrite entries_skip, Hlim by exact Hok; reflexivity).
        assert (Hx : renderEntry cwd ig (render cwd ig) dirPath file child = [])
          by (unfold renderEntry; rewrite Hok; reflexivity).
        pose proof (Hnext file child rest output st st [] out Hx IH) as Hn.
        rewrite app_nil_r in Hn. exact Hn. }
    destruct child as [listing|[buffer|]| | |].
    + (* a directory *)
      rewrite entries_dir by assumption. cbv zeta.
      destruct (_ >? MAX_SIZE); [apply (Hstop _ _ st); reflexivity|].
      pose proof (Hchild (Path.join dirPath file) st) as Hsub.
      destruct (processDirectory cwd ig (Path.join dirPath file)
                  (Dir listing) st) as [[folderOutput|] st1] eqn:Hcall;
        [|intros Hout; discriminate Hout].
      destruct (Hsub folderOutput eq_refl) as [[more Hmore] Hfull].
      cbn [fst snd] in Hmore, Hfull.
      destruct (limitReached st1) eqn:Hst1.
      * (* the subtree was cut: the loop stops after this entry *)
        destruct (truthy folderOutput) eqn:Htruthy.
        -- rewrite entries_limit by exact Hst1.
           cbn [fst snd]. intros Hout.
           exists (folderHeaderOf (relative cwd (Path.join dirPath file))
                   ++ folderOutput).
           split; [congruence|].
           split; [|intros _ H; cbn [emit limitReached] in H; congruence].
           cbn [renderEntries]. unfold renderEntry. rewrite Hok. cbv zeta.
           rewrite Hmore.
           destruct folderOutput as [|c fo]; [discriminate Htruthy|].
           cbn [app truthy]. rewrite <- !app_assoc. cbn [app].
           eexists. rewrite <- !app_assoc. reflexivity.
        -- rewrite entries_limit by exact Hst1.
           apply (Hstop _ _ st st1 out Hst1).
      * (* the subtree is complete *)
        specialize (Hfull Hlim eq_refl). subst folderOutput.
        destruct (truthy (render cwd ig (Path.join dirPath file)
                            (Dir listing))) eqn:Htruthy.
        -- apply (Hnext file (Dir listing) rest output st); [|exact IH].
           unfold renderEntry. rewrite Hok. cbv zeta. rewrite Htruthy.
           reflexivity.
        -- assert (Hx : renderEntry cwd ig (render cwd ig) dirPath file
                          (Dir listing) = [])
             by (unfold renderEntry; rewrite Hok; cbv zeta; rewrite Htruthy;
                 reflexivity).
           pose proof (Hnext file (Dir listing) rest output st st1 [] out
                         Hx IH) as Hn.
           rewrite app_nil_r in Hn. exact Hn.
    + (* a readable file *)
      rewrite entries_file by assumption. cbv zeta.
      destruct (_ >? MAX_SIZE); [apply (Hstop _ _ st); reflexivity|].
      destruct (isBinaryFile buffer _) eqn:Hbin.
      * destruct (_ >? MAX_SIZE); [apply (Hstop _ _ st); reflexivity|].
        apply (Hnext file (File (Some buffer)) rest output st); [|exact IH].
        unfold renderEntry. rewrite Hok. cbv zeta. rewrite Hbin. reflexivity.
      * destruct (toString buffer) as [content|] eqn:Hdec;
          [|intros Hout; discriminate Hout].
        apply toString_Some in Hdec. destruct Hdec as [-> _].
        destruct (_ >? MAX_SIZE); [apply (Hstop _ _ st); reflexivity|].
        apply (Hnext file (File (Some buffer)) rest output st); [|exact IH].
        unfold renderEntry. rewrite Hok. cbv zeta. rewrite Hbin. reflexivity.
    + (* a file that cannot be read *)
      pose proof (entries_plain cwd ig (processDirectory cwd ig) dirPath file
                    (File None) rest output st Hlim Hok) as Heq.
      cbv beta iota in Heq. rewrite Heq.
      destruct (_ >? MAX_SIZE); [apply (Hstop _ _ st); reflexivity|].
      assert (Hx : renderEntry cwd ig (render cwd ig) dirPath file (File None)
                   = [])
        by (unfold renderEntry; rewrite Hok; reflexivity).
      pose proof (Hnext file (File None) rest output st st [] out Hx IH) as Hn.
      rewrite app_nil_r in Hn. exact Hn.
    + unfold eligible in Hok. cbn [isSymbolicLink] in Hok.
      rewrite !andb_false_r, ?andb_false_l in Hok. discriminate Hok.
    + pose proof (entries_plain cwd ig (processDirectory cwd ig) dirPath file
                    Other rest output st Hlim Hok) as Heq.
      cbv beta iota in Heq. rewrite Heq.
      assert (Hx : renderEntry cwd ig (render cwd ig) dirPath file Other = [])
        by (unfold renderEntry; rewrite Hok; reflexivity).
      pose proof (Hnext file Other rest output st st [] out Hx IH) as Hn.
      rewrite app_nil_r in Hn. exact Hn.
    + unfold eligible in Hok. cbn [lstatFails] in Hok.
      rewrite !andb_false_r, ?andb_false_l in Hok. discriminate Hok.
Qed.

Lemma processDirectory_prefix (n : node) : beginsFullText cwd ig n.
Proof.
  induction n as [files IH| | | | |] using node_nested_ind;
    intros dirPath st out; cbn [processDirectory render fst snd];
    try (intros Hout; injection Hout as <-;
         split; [exists []; reflexivity | reflexivity]).
  intros Hout.
  destruct (entries_prefix dirPath files IH [] (record (ReadDir dirPath) st)
              out Hout)
    as (delta & -> & Hmore & Hfull).
  cbn [app]. split; [exact Hmore|].
  intros Hlim Hend. apply Hfull; [exact Hlim | exact Hend].
Qed.

End Prefix.

(** X1.  Whatever the budget does, the text a walk returns is a
    beginning of the text the directory has with no budget; and a walk
    that starts and ends with the flag unset returns all of it. *)
Theorem truncated_output_is_prefix cwd ig dirPath (n : node) (st : state)
    (out : jsstring) :
  fst (processDirectory cwd ig dirPath n st) = Some out ->
  (exists rest, render cwd ig dirPath n = out ++ rest)
  /\ (limitReached st = false ->
      limitReached (snd (processDirectory cwd ig dirPath n st)) = false ->
      out = render cwd ig dirPath n).
Proof. apply processDirectory_prefix. Qed.

(** Thirty bytes below the budget the walk of [c.txt] returns nothing;
    from the start it returns the whole block. *)
Lemma truncated_output_is_prefix_witness :
  fileHeaderOf (lit "c.txt") ++ lit "hello world"
  = render [lit "r"] noRules [lit "r"] (Dir (Some oneFolder))
  /\ exists rest,
       render [lit "r"] noRules [lit "r"] (Dir (Some oneFolder)) = [] ++ rest.
Proof.
  split.
  - apply (proj2 (truncated_output_is_prefix [lit "r"] noRules [lit "r"]
                    (Dir (Some oneFolder)) initial
                    (fileHeaderOf (lit "c.txt") ++ lit "hello world")
                    eq_refl));
      vm_compute; reflexivity.
  - apply (proj1 (truncated_output_is_prefix [lit "r"] noRules [lit "r"]
                    (Dir (Some oneFolder)) nearCap [] eq_refl)).
Defined.

(** X2.  The text handed to the clipboard is a beginning of the root
    header followed by the text of the whole tree; when the run reports
    a complete copy it is all of it, and the run reports a truncation
    only with the flag set. *)
Theorem copied_means_complete (w : world) (text : jsstring) :
  delivered (effects (main w)) = Some text ->
  let full :=
    rootHeaderOf (Path.basename (cwd w))
    ++ render (cwd w) (loadGitIgnoreRules w (effectiveRoot w)) (cwd w)
         (tree w) in
  (exists rest, full = text ++ rest)
  /\ (In (ConsoleLog CopiedToClipboard) (effects (main w)) -> text = full)
  /\ (In (ConsoleLog OutputTruncated) (effects (main w)) ->
      limitReached (final (main w)) = true).
Proof.
  cbv zeta. unfold effectiveRoot.
  assert (Hgen : forall asked,
            (forall m, ~ In (ConsoleLog m) asked) ->
            delivered asked = None ->
            delivered (effects (proceed w (isGitRepo w (cwd w)) asked))
            = Some text ->
            (exists rest,
               rootHeaderOf (Path.basename (cwd w))
               ++ render (cwd w)
                    (loadGitIgnoreRules w
                       (match isGitRepo w (cwd w) with
                        | Some r => r
                        | None => cwd w
                        end)) (cwd w) (tree w) = text ++ rest)
            /\ (In (ConsoleLog CopiedToClipboard)
                  (effects (proceed w (isGitRepo w (cwd w)) asked)) ->
                text
                = rootHeaderOf (Path.basename (cwd w))
                  ++ render (cwd w)
                       (loadGitIgnoreRules w
                          (match isGitRepo w (cwd w) with
                           | Some r => r
                           | None => cwd w
                           end)) (cwd w) (tree w))
            /\ (In (ConsoleLog OutputTruncated)
                  (effects (proceed w (isGitRepo w (cwd w)) asked)) ->
                limitReached (final (proceed w (isGitRepo w (cwd w)) asked))
                = true)).
  { intros asked Hquiet Hasked. unfold proceed.
    set (ig := loadGitIgnoreRules w _).
    set (st0 := emit RootHeader [] _ _ initial).
    pose proof (processDirectory_prefix (cwd w) ig (tree w) (cwd w) st0)
      as Hpre.
    destruct (processDirectory (cwd w) ig (cwd w) (tree w) st0)
      as [[walked|] st]; cbn [fst snd effects final] in *.
    2:{ rewrite delivered_app by exact Hasked. cbn [delivered].
        intros Hd; discriminate Hd. }
    destruct (Hpre walked eq_refl) as [[rest Hrest] Hfull].
    rewrite delivered_app by exact Hasked. cbn [app delivered]. intros [= <-].
    split; [exists rest; rewrite Hrest, app_assoc; reflexivity|].
    split.
    - intros Hin. apply in_app_or in Hin.
      destruct Hin as [Hin|Hin]; [exfalso; exact (Hquiet _ Hin)|].
      destruct Hin as [Hin|Hin]; [discriminate Hin|].
      destruct (clipboard w).
      + destruct Hin as [Hin|[Hin|[]]]; discriminate Hin.
      + destruct (limitReached st) eqn:Hst.
        * destruct Hin as [Hin|[Hin|[]]]; discriminate Hin.
        * rewrite Hfull; reflexivity.
    - intros Hin. apply in_app_or in Hin.
      destruct Hin as [Hin|Hin]; [exfalso; exact (Hquiet _ Hin)|].
      destruct Hin as [Hin|Hin]; [discriminate Hin|].
      destruct (clipboard w).
      + destruct Hin as [Hin|[Hin|[]]]; discriminate Hin.
      + destruct (limitReached st) eqn:Hst; [reflexivity|].
        destruct Hin as [Hin|[Hin|[]]]; discriminate Hin. }
  unfold main. destruct (isGitRepo w (cwd w)) as [r|] eqn:Hrepo.
  - apply (Hgen []); [intros m [] | reflexivity].
  - destruct (negb _).
    + intros Hd. discriminate Hd.
    + apply (Hgen [Question NoRepositoryContinue]); [|reflexivity].
      intros m [H|[]]. discriminate H.
Qed.

(** The ignore-file example reports a complete copy. *)
Lemma copied_means_complete_witness :
  delivered (effects (main buildIgnored))
  = Some (rootHeaderOf (lit "r")
          ++ render [lit "r"]
               (loadGitIgnoreRules buildIgnored (effectiveRoot buildIgnored))
               [lit "r"] buildTree).
Proof.
  destruct (delivered (effects (main buildIgnored))) as [text|] eqn:Hd;
    [|vm_compute in Hd; discriminate Hd].
  f_equal.
  apply (proj1 (proj2 (copied_means_complete buildIgnored text Hd))).
  vm_compute. tauto.
Defined.

(* ================================================================== *)
(** ** Entries the loop passes over *)
(* ================================================================== *)

Lemma eligible_prune cwd ig dirPath file child p :
  eligible cwd ig dirPath file (prune cwd ig p child)
  = eligible cwd ig dirPath file child.
Proof. destruct child as [[l|]|d| | |]; reflexivity. Qed.

Lemma entries_prune cwd ig dirPath files :
  Forall (fun e => forall p st,
            processDirectory cwd ig p (prune cwd ig p (snd e)) st
            = processDirectory cwd ig p (snd e) st) files ->
  forall output st,
    entries cwd ig (processDirectory cwd ig) dirPath
      (pruneEntries cwd ig (prune cwd ig) dirPath files) output st
    = entries cwd ig (processDirectory cwd ig) dirPath files output st.
Proof.
  induction 1 as [|[file child] rest Hchild _ IH]; intros output st;
    [reflexivity|].
  cbn [pruneEntries]. cbn [snd] in Hchild.
  destruct (eligible cwd ig dirPath file child) eqn:Hok.
  - destruct (Bool.bool_dec (limitReached st) true) as [Hlim|Hlim].
    { rewrite !entries_limit by exact Hlim. reflexivity. }
    apply not_true_is_false in Hlim.
    destruct child as [listing|[buffer|]| | |].
    + assert (Hok' : eligible cwd ig dirPath file
                       (prune cwd ig (Path.join dirPath file) (Dir listing))
                     = true) by (rewrite eligible_prune; exact Hok).
      destruct listing as [l|].
      * cbn [prune] in Hok'.
        rewrite (entries_dir cwd ig _ dirPath file (Some l)) by assumption.
        rewrite (entries_dir cwd ig _ dirPath file
                   (Some (pruneEntries cwd ig (prune cwd ig)
                            (Path.join dirPath file) l))) by assumption.
        cbv zeta.
        change (Dir (Some (pruneEntries cwd ig (prune cwd ig)
                             (Path.join dirPath file) l)))
          with (prune cwd ig (Path.join dirPath file) (Dir (Some l))).
        rewrite Hchild.
        destruct (_ >? MAX_SIZE); [reflexivity|].
        destruct (processDirectory cwd ig (Path.join dirPath file)
                    (Dir (Some l)) st) as [[folderOutput|] st1];
          [|reflexivity].
        destruct (truthy folderOutput); apply IH.
      * cbn [prune].
        rewrite !(entries_dir cwd ig _ dirPath file None) by assumption.
        cbv zeta. destruct (_ >? MAX_SIZE); [reflexivity|].
        destruct (processDirectory cwd ig (Path.join dirPath file)
                    (Dir None) st) as [[folderOutput|] st1];
          [|reflexivity].
        destruct (truthy folderOutput); apply IH.
    + cbn [prune]. rewrite !entries_file by assumption. cbv zeta.
      destruct (_ >? MAX_SIZE); [reflexivity|].
      destruct (isBinaryFile buffer _);
        [|destruct (toString buffer) as [content|]; [|reflexivity]];
        (destruct (_ >? MAX_SIZE); [reflexivity | apply IH]).
    + cbn [prune].
      pose proof (fun r => entries_plain cwd ig (processDirectory cwd ig)
                    dirPath file (File None) r output st Hlim Hok) as Heq.
      cbv beta iota in Heq. rewrite !Heq.
      destruct (_ >? MAX_SIZE); [reflexivity | apply IH].
    + unfold eligible in Hok. cbn [isSymbolicLink] in Hok.
      rewrite !andb_false_r, ?andb_false_l in Hok. discriminate Hok.
    + cbn [prune].
      pose proof (fun r => entries_plain cwd ig (processDirectory cwd ig)
                    dirPath file Other r output st Hlim Hok) as Heq.
      cbv beta iota in Heq. rewrite !Heq. apply IH.
    + unfold eligible in Hok. cbn [lstatFails] in Hok.
      rewrite !andb_false_r, ?andb_false_l in Hok. discriminate Hok.
  - rewrite IH, entries_skip by exact Hok.
    destruct (limitReached st) eqn:Hlim; [|reflexivity].
    apply entries_limit, Hlim.
Qed.

Lemma pruneEntries_eligible cwd ig dirPath files :
  Forall (fun e => eligible cwd ig dirPath (fst e) (snd e) = true)
    (pruneEntries cwd ig (prune cwd ig) dirPath files).
Proof.
  induction files as [|[file child] rest IH]; [constructor|].
  cbn [pruneEntries].
  destruct (eligible cwd ig dirPath file child) eqn:Hok; [|exact IH].
  constructor; [|exact IH]. cbn [fst snd]. rewrite eligible_prune. exact Hok.
Qed.

Lemma processDirectory_prune cwd ig (n : node) :
  forall dirPath st,
    processDirectory cwd ig dirPath (prune cwd ig dirPath n) st
    = processDirectory cwd ig dirPath n st.
Proof.
  induction n as [files IH| | | | |] using node_nested_ind;
    intros dirPath st; try reflexivity.
  cbn [prune processDirectory]. apply entries_prune. exact IH.
Qed.

(** X3.  Dotfiles other than [.gitignore], symbolic links, entries
    that [lstatSync] cannot examine and entries the rules ignore, at any
    depth and with all they contain, leave no trace: the walk of the
    tree without them returns the same text and the same state,
    history included.  In the tree without them every entry of the
    directory passes the filters. *)
Theorem skipped_entries_leave_no_trace cwd ig (n : node) dirPath st :
  processDirectory cwd ig dirPath (prune cwd ig dirPath n) st
  = processDirectory cwd ig dirPath n st
  /\ forall files,
       n = Dir (Some files) ->
       exists kept,
         prune cwd ig dirPath n = Dir (Some kept)
         /\ Forall (fun e => eligible cwd ig dirPath (fst e) (snd e) = true)
              kept.
Proof.
  split.
  - apply processDirectory_prune.
  - intros files ->. eexists. split; [reflexivity|].
    apply pruneEntries_eligible.
Qed.

(** In [mixedTree] the walk sees [a.txt], the socket, [sub] with
    [c.txt], and [logo.png]. *)
Lemma skipped_entries_leave_no_trace_witness :
  processDirectory [lit "r"] noRules [lit "r"] mixedTree initial
  = processDirectory [lit "r"] noRules [lit "r"]
      (Dir (Some [(lit "a.txt", File (Some (lit "hello")));
                  (lit "sock", Other);
                  (lit "sub",
                   Dir (Some [(lit "c.txt", File (Some (lit "world")))]));
                  (lit "logo.png", File (Some (lit "hello")))]))
      initial.
Proof.
  rewrite <- (proj1 (skipped_entries_leave_no_trace [lit "r"] noRules
                       mixedTree [lit "r"] initial)).
  reflexivity.
Defined.

(* ================================================================== *)
(** ** The pattern [build/] *)
(* ================================================================== *)

Lemma existsb_none {A} (f : A -> bool) (l : list A) :
  existsb f l = false -> forall x, In x l -> f x = false.
Proof.
  induction l as [|a l IH]; cbn [existsb In]; intros H x Hin; [destruct Hin|].
  apply orb_false_iff in H. destruct H as [Ha Hl].
  destruct Hin as [<-|Hin]; auto.
Qed.

(** With no negating line, a directory named by a rule line is
    ignored. *)
Lemma dirIgnored_named (ruleLines : list jsstring) (name : jsstring) :
  (forall line, In line ruleLines -> startsWith (lit "!") line = false) ->
  In (name ++ lit "/") ruleLines ->
  dirIgnored ruleLines name = true.
Proof.
  unfold dirIgnored.
  assert (H : forall ls ignored,
            (forall line, In line ls -> startsWith (lit "!") line = false) ->
            ignored = true \/ In (name ++ lit "/") ls ->
            fold_left
              (fun ignored line =>
                 match ruleOn line name with
                 | Some b => b
                 | None => ignored
                 end) ls ignored = true).
  { induction ls as [|line ls IH]; intros ignored Hpos Hin; cbn [fold_left].
    - destruct Hin as [Hin|[]]. exact Hin.
    - apply IH; [intros l Hl; apply Hpos; right; exact Hl|].
      unfold ruleOn.
      destruct (str_eqb line (name ++ lit "/")) eqn:Hname; [left; reflexivity|].
      destruct (str_eqb line (lit "!" ++ name ++ lit "/")) eqn:Hneg.
      + apply str_eqb_eq in Hneg.
        assert (Hbang : startsWith (lit "!") line = true)
          by (rewrite Hneg; reflexivity).
        rewrite (Hpos line (or_introl eq_refl)) in Hbang. discriminate Hbang.
      + destruct Hin as [Hin|[Hin|Hin]]; auto.
        rewrite <- Hin, str_eqb_refl in Hname. discriminate Hname. }
  intros Hpos Hin. apply H; auto.
Qed.

(** The matcher of the examples does what the claim needs of the
    package. *)
Lemma dirMatcher_honours : honoursBuildPattern dirMatcher.
Proof.
  intros added (t & Ht & Hline) Hpos p Hp.
  unfold dirMatcher. unfold under in Hp.
  apply existsb_exists in Hp. destruct Hp as (c & Hc & Heq).
  apply str_eqb_eq in Heq. subst c.
  apply existsb_exists. exists (lit "build"). split; [exact Hc|].
  apply dirIgnored_named.
  - intros line Hin. apply in_flat_map in Hin.
    destruct Hin as (t' & Ht' & Hin).
    exact (existsb_none _ _ (Hpos t' Ht') line Hin).
  - unfold hasLine in Hline. apply existsb_exists in Hline.
    destruct Hline as (l & Hl & Heq). apply str_eqb_eq in Heq. subst l.
    apply in_flat_map. exists t. split; assumption.
Qed.

(** Every path of a tree without the entries the loop passes over is
    one the rules do not ignore. *)
Lemma entryPaths_kept cwd ig dirPath files :
  Forall (fun e => forall p q,
            In q (pathsBelow cwd p (prune cwd ig p (snd e))) ->
            ig q = false) files ->
  forall q,
    In q (entryPaths cwd (pathsBelow cwd) dirPath
            (pruneEntries cwd ig (prune cwd ig) dirPath files)) ->
    ig q = false.
Proof.
  induction 1 as [|[file child] rest Hchild _ IH]; intros q Hin;
    [destruct Hin|].
  cbn [pruneEntries] in Hin. cbn [snd] in Hchild.
  destruct (eligible cwd ig dirPath file child) eqn:Hok; [|exact (IH q Hin)].
  cbn [entryPaths In] in Hin.
  destruct Hin as [<-|Hin].
  - unfold eligible in Hok. apply andb_prop in Hok. destruct Hok as [_ Hig].
    apply negb_true_iff in Hig. exact Hig.
  - apply in_app_or in Hin. destruct Hin as [Hin|Hin]; [|exact (IH q Hin)].
    exact (Hchild _ q Hin).
Qed.

Lemma pathsBelow_kept cwd ig (n : node) :
  forall dirPath q,
    In q (pathsBelow cwd dirPath (prune cwd ig dirPath n)) -> ig q = false.
Proof.
  induction n as [files IH| | | | |] using node_nested_ind;
    intros dirPath q Hin; try destruct Hin.
  cbn [prune pathsBelow] in Hin.
  exact (entryPaths_kept cwd ig dirPath files IH q Hin).
Qed.

(** The locator and the loader do not look at the tree. *)
Lemma isGitRepo_withTree (w : world) (t : node) (dir : path) :
  isGitRepo (withTree w t) dir = isGitRepo w dir.
Proof.
  induction dir as [|c parent IH]; [reflexivity|].
  cbn [isGitRepo withTree existsSync statSync]. rewrite IH. reflexivity.
Qed.

Lemma loadRulesFrom_withTree (w : world) (t : node) (rootDir : path) :
  forall current added,
    loadRulesFrom (withTree w t) rootDir current added
    = loadRulesFrom w rootDir current added.
Proof.
  induction current as [|c parent IH]; intros added;
    cbn [loadRulesFrom withTree existsSync readFileSync];
    [reflexivity|].
  rewrite IH. reflexivity.
Qed.

(** A run depends on the tree only through the walk. *)
Lemma main_withTree (w : world) (t : node) :
  processDirectory (cwd w) (loadGitIgnoreRules w (effectiveRoot w)) (cwd w) t
    (emit RootHeader [] (rootHeaderOf (Path.basename (cwd w)))
       (byteLength (rootHeaderOf (Path.basename (cwd w)))) initial)
  = processDirectory (cwd w) (loadGitIgnoreRules w (effectiveRoot w)) (cwd w)
      (tree w)
      (emit RootHeader [] (rootHeaderOf (Path.basename (cwd w)))
         (byteLength (rootHeaderOf (Path.basename (cwd w)))) initial) ->
  main (withTree w t) = main w.
Proof.
  intros Hwalk. unfold main.
  change (cwd (withTree w t)) with (cwd w).
  change (answer (withTree w t)) with (answer w).
  rewrite isGitRepo_withTree.
  assert (Hgo : forall asked,
            proceed (withTree w t) (isGitRepo w (cwd w)) asked
            = proceed w (isGitRepo w (cwd w)) asked).
  { intros asked. unfold proceed, loadGitIgnoreRules.
    change (cwd (withTree w t)) with (cwd w).
    change (tree (withTree w t)) with t.
    change (clipboard (withTree w t)) with (clipboard w).
    change (ignores (withTree w t)) with (ignores w).
    rewrite loadRulesFrom_withTree.
    unfold effectiveRoot, loadGitIgnoreRules in Hwalk.
    rewrite Hwalk. reflexivity. }
  destruct (isGitRepo w (cwd w)) as [r|] eqn:Hrepo.
  - apply (Hgo []).
  - destruct (negb _); [reflexivity | apply (Hgo [_])].
Qed.

(** C6, as stated, fails.  In the repository [/repo], whose root-level
    ignore-file holds the pattern [build/], a run started in
    [/repo/build] copies [out.js] and [deep/y.txt], which lie under the
    directory [build]: the rules are matched against paths relative to
    the working directory, and none of those has a component [build].
    And in [/r], whose ignore-file holds the pattern [build/] followed
    by its negation, [build/out.js] is copied. *)
Lemma build_not_always_excluded :
  (effectiveRoot insideBuild = [lit "repo"]
   /\ readFileSync insideBuild (Path.join [lit "repo"] (lit ".gitignore"))
      = Some (lit "build/")
   /\ hasLine (lit "build/") (lit "build/") = true
   /\ locatedUnder (lit "build")
        (Path.join (cwd insideBuild) (lit "out.js")) = true
   /\ locatedUnder (lit "build")
        (Path.join (Path.join (cwd insideBuild) (lit "deep")) (lit "y.txt"))
      = true
   /\ delivered (effects (main insideBuild))
      = Some (rootHeaderOf (lit "build")
              ++ fileHeaderOf (lit "out.js") ++ lit "x = 1"
              ++ folderHeaderOf (lit "deep")
              ++ fileHeaderOf (lit "deep/y.txt") ++ lit "secret"))
  /\ (effectiveRoot buildReincluded = [lit "r"]
      /\ readFileSync buildReincluded
           (Path.join [lit "r"] (lit ".gitignore"))
         = Some (lit "build/" ++ nl ++ lit "!build/")
      /\ hasLine (lit "build/") (lit "build/" ++ nl ++ lit "!build/") = true
      /\ under (lit "build") (lit "build/out.js") = true
      /\ delivered (effects (main buildReincluded))
         = Some (rootHeaderOf (lit "r")
                 ++ folderHeaderOf (lit "build")
                 ++ fileHeaderOf (lit "build/out.js") ++ lit "x = 1")).
Proof. repeat split; vm_compute; reflexivity. Qed.

(** C6, amended.  Let the ignore-file at the root the rules are loaded
    against (the repository root, or the working directory when there
    is no repository) be readable and hold the line [build/], let no
    rule text loaded for the run hold a negating line, and let the
    [ignore] package do with such texts what [honoursBuildPattern]
    says.  Paths are taken relative to the working directory, as the
    walker gives them to the matcher.  Then the text of the ignore-file
    is among the rule texts of the run; the rule set ignores every
    path under a directory named [build]; no folder header, file
    header, file content or binary marker is appended for such a path,
    at any depth; and the whole run, the text handed to the clipboard
    included, is the run on the tree from which every ignored entry has
    been removed, a tree with no path under [build].  The text handed
    to the clipboard is the root header followed by the text of the
    units appended. *)
Theorem build_is_excluded (w : world) (rules : jsstring) :
  let root := effectiveRoot w in
  let loaded := loadRulesFrom w root (cwd w) [] in
  let ig := loadGitIgnoreRules w root in
  let kept := prune (cwd w) ig (cwd w) (tree w) in
  existsSync w (Path.join root (lit ".gitignore")) = true ->
  readFileSync w (Path.join root (lit ".gitignore")) = Some rules ->
  hasLine (lit "build/") rules = true ->
  (forall t, In t loaded -> negates t = false) ->
  honoursBuildPattern (ignores w) ->
  In rules loaded
  /\ (forall p, under (lit "build") p = true -> ig p = true)
  /\ (forall k p text n,
        In (Emit k p text n) (history (final (main w))) ->
        under (lit "build") p = false)
  /\ (forall p, In p (pathsBelow (cwd w) (cwd w) kept) ->
                under (lit "build") p = false)
  /\ main (withTree w kept) = main w
  /\ (forall text,
        delivered (effects (main w)) = Some text ->
        exists units walked,
          history (final (main w))
          = Emit RootHeader [] (rootHeaderOf (Path.basename (cwd w)))
              (byteLength (rootHeaderOf (Path.basename (cwd w)))) :: units
          /\ text = rootHeaderOf (Path.basename (cwd w)) ++ walked
          /\ renders units walked).
Proof.
  cbv zeta. intros Hex Hread Hline Hpos Hlib.
  assert (Hin : In rules (loadRulesFrom w (effectiveRoot w) (cwd w) [])).
  { destruct (effective_root_above w) as [below Hbelow].
    fold (effectiveRoot w) in Hbelow.
    rewrite Hbelow at 1. apply loadRulesFrom_root; assumption. }
  assert (Hloaded : forall p, under (lit "build") p = true ->
            loadGitIgnoreRules w (effectiveRoot w) p = true).
  { intros p Hp. unfold loadGitIgnoreRules.
    apply Hlib; [exists rules; split; assumption | exact Hpos | exact Hp]. }
  assert (Hnot : forall p, loadGitIgnoreRules w (effectiveRoot w) p = false ->
                           under (lit "build") p = false).
  { intros p Hig. destruct (under (lit "build") p) eqn:Hu; [|reflexivity].
    rewrite (Hloaded p Hu) in Hig. discriminate Hig. }
  split; [exact Hin|]. split; [exact Hloaded|].
  assert (Hgen : forall asked,
            delivered asked = None ->
            (forall k p text n,
               In (Emit k p text n)
                 (history (final (proceed w (isGitRepo w (cwd w)) asked))) ->
               under (lit "build") p = false)
            /\ (forall text,
                  delivered (effects (proceed w (isGitRepo w (cwd w)) asked))
                  = Some text ->
                  exists units walked,
                    history (final (proceed w (isGitRepo w (cwd w)) asked))
                    = Emit RootHeader []
                        (rootHeaderOf (Path.basename (cwd w)))
                        (byteLength (rootHeaderOf (Path.basename (cwd w))))
                      :: units
                    /\ text = rootHeaderOf (Path.basename (cwd w)) ++ walked
                    /\ renders units walked)).
  { intros asked Hasked. split.
    - intros k p text n Hemit.
      destruct (proceed_not_ignored w _ asked k p text n Hemit) as [->|Hig];
        [reflexivity | exact (Hnot p Hig)].
    - intros text Hd.
      destruct (proceed_run w (isGitRepo w (cwd w)) asked)
        as (units & Hh & _ & _ & Hcases).
      destruct Hcases as [(walked & _ & Hr & _ & Heff)|(_ & _ & Heff)];
        rewrite Heff, delivered_app in Hd by exact Hasked.
      + exists units, walked. split; [exact Hh|]. split; [|exact Hr].
        match type of Hd with
        | delivered ([ClipboardWrite ?x] ++ ?r) = _ =>
            change (delivered ([ClipboardWrite x] ++ r)) with (Some x) in Hd
        end.
        congruence.
      + discriminate Hd. }
  split; [|split; [|split]].
  - unfold main. destruct (isGitRepo w (cwd w)) as [r|] eqn:Hrepo.
    + apply (Hgen []). reflexivity.
    + destruct (negb _); [intros k p text n []|].
      apply (Hgen [Question NoRepositoryContinue]). reflexivity.
  - intros p Hp. apply Hnot. exact (pathsBelow_kept _ _ _ _ _ Hp).
  - apply main_withTree. apply processDirectory_prune.
  - unfold main. destruct (isGitRepo w (cwd w)) as [r|] eqn:Hrepo.
    + apply (Hgen []). reflexivity.
    + destruct (negb _); [intros text Hd; discriminate Hd|].
      apply (Hgen [Question NoRepositoryContinue]). reflexivity.
Qed.

(** In [/r], with [build/] in [.gitignore]: the clipboard receives the
    root header and the blocks of [.gitignore] and [a.txt]; nothing of
    [build/out.js] or [build/deep/y.txt], which the walk on the tree
    without ignored entries does not hold. *)
Lemma build_is_excluded_witness :
  (forall k p text n,
     In (Emit k p text n) (history (final (main buildIgnored))) ->
     under (lit "build") p = false)
  /\ main (withTree buildIgnored
             (Dir (Some [(lit ".gitignore", File (Some (lit "build/")));
                         (lit "a.txt", File (Some (lit "hello")));
                         (lit "build", Dir (Some []))])))
     = main buildIgnored
  /\ delivered (effects (main buildIgnored))
     = Some (rootHeaderOf (lit "r")
             ++ fileHeaderOf (lit ".gitignore") ++ lit "build/"
             ++ fileHeaderOf (lit "a.txt") ++ lit "hello").
Proof.
  destruct (build_is_excluded buildIgnored (lit "build/"))
    as (_ & _ & Hemit & _ & Hsame & _).
  - vm_compute. reflexivity.
  - vm_compute. reflexivity.
  - vm_compute. reflexivity.
  - assert (H : forallb (fun t => negb (negates t))
                  (loadRulesFrom buildIgnored (effectiveRoot buildIgnored)
                     (cwd buildIgnored) []) = true)
      by (vm_compute; reflexivity).
    intros t Hin. rewrite forallb_forall in H.
    apply negb_true_iff. exact (H t Hin).
  - exact dirMatcher_honours.
  - split; [exact Hemit|]. split; [exact Hsame|].
    vm_compute. reflexivity.
Defined.

(* ================================================================== *)
(** ** How far above the cap *)
(* ================================================================== *)

Lemma folderBytes_app (a b : list event) :
  folderBytes (a ++ b) = folderBytes a + folderBytes b.
Proof.
  induction a as [|[ | |[] p text n] a IH]; cbn [app folderBytes]; lia.
Qed.

Lemma folderBytes_nonneg (h : list event) : 0 <= folderBytes h.
Proof.
  induction h as [|[ | |[] p text n] h IH]; cbn [folderBytes]; try lia.
  pose proof (byteLength_nonneg text). lia.
Qed.

(** Only folder headers take the counter above the cap. *)
Lemma steps_bound ig st st' :
  steps ig st st' ->
  exists new,
    history st' = history st ++ new
    /\ Z.max (currentSize st') MAX_SIZE
       <= Z.max (currentSize st) MAX_SIZE + folderBytes new
    /\ currentSize st <= currentSize st'.
Proof.
  induction 1 as [st|st st1 st2 _ IH Hstep].
  - exists []. rewrite app_nil_r. cbn [folderBytes]. repeat split; lia.
  - destruct IH as (new & Hh & Hmax & Hmono).
    assert (Hone : exists e,
              history st2 = history st1 ++ [e]
              /\ Z.max (currentSize st2) MAX_SIZE
                 <= Z.max (currentSize st1) MAX_SIZE + folderBytes [e]
              /\ currentSize st1 <= currentSize st2).
    { destruct Hstep as [s dirPath Hlim|s Hlim|s k p text Hlim Hig Hk Hfit
                        |s p Hig];
        eexists; (split; [reflexivity|]);
        cbn [currentSize record setLimit emit folderBytes].
      - split; lia.
      - split; lia.
      - pose proof (byteLength_nonneg text).
        destruct Hk as [-> | ->]; cbn [folderBytes]; split; lia.
      - pose proof (byteLength_nonneg (folderHeaderOf p)). split; lia. }
    destruct Hone as (e & Hh' & Hmax' & Hmono').
    exists (new ++ [e]). rewrite folderBytes_app.
    split; [rewrite Hh', Hh, app_assoc; reflexivity|]. split; lia.
Qed.

(** X4.  Over a call of the walker, from any state, the counter never
    decreases; and if it starts at or below the cap it ends above the
    cap by at most the bytes of the folder headers the call has
    appended: a call that appends no folder header stays within the
    cap. *)
Theorem excess_is_folder_headers cwd ig dirPath (n : node) (st : state) :
  let st' := snd (processDirectory cwd ig dirPath n st) in
  currentSize st <= currentSize st'
  /\ (currentSize st <= MAX_SIZE ->
      currentSize st' <= MAX_SIZE + folderBytes (eventsSince st st')).
Proof.
  cbv zeta.
  destruct (Bool.bool_dec (limitReached st) true) as [Hlim|Hlim].
  - rewrite (processDirectory_saturated _ _ _ _ _ Hlim).
    cbn [snd currentSize record]. split; [lia|]. intros Hcap.
    pose proof (folderBytes_nonneg
                  (eventsSince st (record (ReadDir dirPath) st))). lia.
  - apply not_true_is_false in Hlim.
    destruct (steps_bound ig _ _
                (processDirectory_steps cwd ig n dirPath st Hlim))
      as (new & Hh & Hmax & Hmono).
    rewrite (eventsSince_app _ _ new Hh). split; [exact Hmono | lia].
Qed.

(** From the start, the folder [sub] with [c.txt]: 36 bytes for the
    block, 21 for the header of [sub]. *)
Lemma excess_is_folder_headers_witness :
  currentSize
    (snd (processDirectory [lit "r"] noRules [lit "r"]
            (Dir (Some [(lit "sub", Dir (Some oneFolder))])) initial))
  <= MAX_SIZE + 21.
Proof.
  pose proof (proj2 (excess_is_folder_headers [lit "r"] noRules [lit "r"]
                       (Dir (Some [(lit "sub", Dir (Some oneFolder))]))
                       initial)) as H.
  cbv zeta in H.
  replace 21 with
    (folderBytes
       (eventsSince initial
          (snd (processDirectory [lit "r"] noRules [lit "r"]
                  (Dir (Some [(lit "sub", Dir (Some oneFolder))]))
                  initial))))
    by (vm_compute; reflexivity).
  apply H. vm_compute. discriminate.
Defined.

(** X5.  When the root header fits the budget, the text handed to the
    clipboard has at most [MAX_SIZE] bytes plus the bytes of the folder
    headers of the run. *)
Theorem delivered_size_bound (w : world) (text : jsstring) :
  delivered (effects (main w)) = Some text ->
  byteLength (rootHeaderOf (Path.basename (cwd w))) <= MAX_SIZE ->
  byteLength text <= MAX_SIZE + folderBytes (history (final (main w))).
Proof.
  assert (Hgen : forall gitRoot asked,
            delivered asked = None ->
            delivered (effects (proceed w gitRoot asked)) = Some text ->
            byteLength (rootHeaderOf (Path.basename (cwd w))) <= MAX_SIZE ->
            byteLength text
            <= MAX_SIZE
               + folderBytes (history (final (proceed w gitRoot asked)))).
  { intros gitRoot asked Hasked Hd Hroot.
    destruct (proceed_accounting w gitRoot asked Hasked) as (_ & _ & Hsize).
    rewrite (Hsize text Hd).
    destruct (proceed_run w gitRoot asked)
      as (units & Hh & _ & Hsteps & _).
    destruct (steps_bound _ _ _ Hsteps) as (new & Hh' & Hmax & _).
    cbn [history currentSize emit initial app] in Hh', Hmax.
    assert (new = units) as ->.
    { rewrite Hh in Hh'. injection Hh' as Hh'. congruence. }
    rewrite Hh. cbn [folderBytes]. lia. }
  unfold main. destruct (isGitRepo w (cwd w)) as [r|].
  - apply Hgen. reflexivity.
  - destruct (negb _).
    + intros Hd. discriminate Hd.
    + apply Hgen. reflexivity.
Qed.

Lemma delivered_size_bound_witness :
  exists text,
    delivered (effects (main buildIgnored)) = Some text
    /\ byteLength text <= MAX_SIZE + 0.
Proof.
  destruct (delivered (effects (main buildIgnored))) as [text|] eqn:Hd;
    [|vm_compute in Hd; discriminate Hd].
  exists text. split; [reflexivity|].
  replace 0 with (folderBytes (history (final (main buildIgnored))))
    by (vm_compute; reflexivity).
  apply (delivered_size_bound buildIgnored text Hd).
  vm_compute. discriminate.
Defined.

(* ================================================================== *)
(** ** Which rules are loaded *)
(* ================================================================== *)

Lemma loadRulesFrom_levels (w : world) (root : path) :
  forall below added,
    loadRulesFrom w root (below ++ root) added
    = added ++ flat_map (ruleText w) (levels below root).
Proof.
  assert (Hself : forall p, startsWith (Path.toStr p) (Path.toStr p) = true)
    by (intros p; exact (toStr_below [] p)).
  assert (Hadd : forall dir added,
            (if existsSync w (Path.join dir (lit ".gitignore")) then
               match readFileSync w (Path.join dir (lit ".gitignore")) with
               | Some rules => added ++ [rules]
               | None => added
               end
             else added) = added ++ ruleText w dir).
  { intros dir added. unfold ruleText.
    destruct (existsSync w _); [|rewrite app_nil_r; reflexivity].
    destruct (readFileSync w _); [reflexivity | rewrite app_nil_r; reflexivity]. }
  induction below as [|c below IH]; intros added.
  - cbn [app levels flat_map]. rewrite app_nil_r.
    destruct root as [|c parent]; cbn [loadRulesFrom];
      rewrite Hself, Hadd, path_eqb_refl; reflexivity.
  - change ((c :: below) ++ root) with (c :: (below ++ root)).
    cbn [loadRulesFrom levels flat_map].
    pose proof (toStr_below (c :: below) root) as Hprefix.
    cbn [app] in Hprefix. rewrite Hprefix, Hadd.
    destruct (Path.eqb (c :: below ++ root) root) eqn:Heq.
    + apply path_eqb_length in Heq. cbn [List.length] in Heq.
      rewrite length_app in Heq. lia.
    + rewrite IH. cbn [app]. rewrite <- app_assoc. reflexivity.
Qed.

(** X6.  The rule texts handed to the [ignore] package are those of the
    readable [.gitignore] files of the working directory and of each
    directory above it up to the effective root, in that order; a
    missing or unreadable file adds nothing, and nothing above the
    effective root is read. *)
Theorem rules_come_innermost_first (w : world) :
  exists below,
    cwd w = below ++ effectiveRoot w
    /\ loadRulesFrom w (effectiveRoot w) (cwd w) []
       = flat_map (ruleText w) (levels below (effectiveRoot w)).
Proof.
  destruct (effective_root_above w) as [below Hbelow].
  exists below. split; [exact Hbelow|].
  unfold effectiveRoot. rewrite Hbelow at 2.
  apply loadRulesFrom_levels.
Qed.

(** From [/repo/src/lib] in the repository [/repo]: the rules of
    [lib], then those of [/repo]; [src/.gitignore] cannot be read and
    [/.gitignore] lies above the repository. *)
Lemma rules_come_innermost_first_witness :
  loadRulesFrom libWorld (effectiveRoot libWorld) (cwd libWorld) []
  = [lit "*.log"; lit "dist/"].
Proof.
  destruct (rules_come_innermost_first libWorld) as (below & Hcwd & Hrules).
  rewrite Hrules.
  assert (below = [lit "lib"; lit "src"]) as ->.
  { change (cwd libWorld) with ([lit "lib"; lit "src"] ++ [lit "repo"])
      in Hcwd.
    change (effectiveRoot libWorld) with [lit "repo"] in Hcwd.
    apply app_inv_tail in Hcwd. congruence. }
  vm_compute. reflexivity.
Defined.

(* ================================================================== *)
(** ** When the run goes on *)
(* ================================================================== *)

Lemma entries_returns cwd ig self dirPath files :
  Forall (fun e => decodable (snd e) ->
                   forall p st, fst (self p (snd e) st) <> None) files ->
  allEntries decodable files ->
  forall output st,
    fst (entries cwd ig self dirPath files output st) <> None.
Proof.
  induction 1 as [|[file child] rest Hchild _ IH]; intros Hall output st;
    [discriminate|].
  cbn [allEntries] in Hall. destruct Hall as [Hdec Hall].
  specialize (IH Hall). cbn [snd] in Hchild. specialize (Hchild Hdec).
  cbn [entries].
  destruct (limitReached st); [discriminate|].
  destruct (startsWith (lit ".") file
            && negb (str_eqb file (lit ".gitignore"))); [apply IH|].
  destruct (lstatFails child); [apply IH|].
  destruct (isSymbolicLink child); [apply IH|].
  destruct (ig _); [apply IH|].
  destruct child as [listing|[buffer|]| | |]; try apply IH.
  - destruct (_ >? MAX_SIZE); [discriminate|].
    specialize (Hchild (Path.join dirPath file) st).
    destruct (self (Path.join dirPath file) (Dir listing) st)
      as [[folderOutput|] st1]; [|exfalso; apply Hchild; reflexivity].
    destruct (truthy folderOutput); apply IH.
  - destruct (_ >? MAX_SIZE); [discriminate|].
    destruct (isBinaryFile buffer _).
    + destruct (_ >? MAX_SIZE); [discriminate | apply IH].
    + cbn [decodable] in Hdec.
      destruct (toString buffer) as [content|];
        [|exfalso; apply Hdec; reflexivity].
      destruct (_ >? MAX_SIZE); [discriminate | apply IH].
  - destruct (_ >? MAX_SIZE); [discriminate | apply IH].
Qed.

(** The walk of a tree whose files can all be decoded returns. *)
Lemma processDirectory_returns cwd ig (n : node) :
  decodable n ->
  forall dirPath st, fst (processDirectory cwd ig dirPath n st) <> None.
Proof.
  induction n as [files IH| | | | |] using node_nested_ind;
    intros Hdec dirPath st; cbn [processDirectory fst]; try discriminate.
  apply entries_returns; [exact IH | exact Hdec].
Qed.

(** X7.  The run hands a text to the clipboard exactly when a
    repository was found or the answer is [y] or [Y], and the walk of
    the working directory returns.  Once past the prompt the working
    directory is listed, whatever follows.  When an exception ends the
    walk, nothing is handed to the clipboard: the run reports an
    unexpected error and exits with status 1.  The walk returns
    whenever every readable file of the tree can be decoded. *)
Theorem main_goes_on_iff (w : world) :
  let confirmed :=
    isGitRepo w (cwd w) <> None \/ answer w = lit "y" \/ answer w = lit "Y" in
  let rootHeader := rootHeaderOf (Path.basename (cwd w)) in
  let walk :=
    processDirectory (cwd w) (loadGitIgnoreRules w (effectiveRoot w)) (cwd w)
      (tree w)
      (emit RootHeader [] rootHeader (byteLength rootHeader) initial) in
  (delivered (effects (main w)) <> None <-> confirmed /\ fst walk <> None)
  /\ (confirmed -> In (ReadDir (cwd w)) (history (final (main w))))
  /\ (confirmed -> fst walk = None ->
      delivered (effects (main w)) = None
      /\ In (ConsoleError UnexpectedError) (effects (main w))
      /\ exitCode (main w) = 1)
  /\ (decodable (tree w) -> fst walk <> None).
Proof.
  cbv zeta.
  assert (Hlisted : forall ig st,
            In (ReadDir (cwd w))
              (history (snd (processDirectory (cwd w) ig (cwd w) (tree w)
                               st)))).
  { intros ig st.
    destruct (tree w) as [[files|]|data| | |]; cbn [processDirectory snd];
      try (cbn [record history]; apply in_or_app; right; left; reflexivity).
    destruct (entries_renders (cwd w) ig (processDirectory (cwd w) ig)
                (cwd w) files) with (output := @nil Z)
                                    (st := record (ReadDir (cwd w)) st)
      as (new & Hh & _).
    - apply Forall_forall. intros e _ p st0. apply processDirectory_renders.
    - rewrite Hh. cbn [record history]. apply in_or_app. left.
      apply in_or_app. right. left. reflexivity. }
  assert (Hgo : forall asked,
            delivered asked = None ->
            let run := proceed w (isGitRepo w (cwd w)) asked in
            let walk :=
              processDirectory (cwd w)
                (loadGitIgnoreRules w (effectiveRoot w)) (cwd w) (tree w)
                (emit RootHeader [] (rootHeaderOf (Path.basename (cwd w)))
                   (byteLength (rootHeaderOf (Path.basename (cwd w))))
                   initial) in
            (delivered (effects run) <> None <-> fst walk <> None)
            /\ In (ReadDir (cwd w)) (history (final run))
            /\ (fst walk = None ->
                delivered (effects run) = None
                /\ In (ConsoleError UnexpectedError) (effects run)
                /\ exitCode run = 1)).
  { intros asked Hasked. cbv zeta. unfold effectiveRoot.
    destruct (proceed_run w (isGitRepo w (cwd w)) asked)
      as (units & _ & Hfin & _ & Hcases).
    cbv zeta in Hfin. split; [|split].
    - destruct Hcases as [(walked & Hw & _ & _ & ->)|(Hw & _ & ->)];
        rewrite Hw, delivered_app by exact Hasked; cbn [app delivered];
        split; intros H; congruence.
    - rewrite Hfin. apply Hlisted.
    - intros Hthrown.
      destruct Hcases as [(walked & Hw & _)|(_ & Hexit & Heff)];
        [congruence|].
      rewrite Heff, delivered_app by exact Hasked. cbn [delivered].
      split; [reflexivity|]. split; [|exact Hexit].
      apply in_or_app. right. left. reflexivity. }
  split; [|split; [|split]].
  4:{ intros Hdec. apply processDirectory_returns, Hdec. }
  all: unfold main; destruct (isGitRepo w (cwd w)) as [r|] eqn:Hrepo.
  - destruct (Hgo [] eq_refl) as (Hiff & _). cbv zeta in Hiff. rewrite Hiff.
    split; [intros H; split; [left; discriminate | exact H] | tauto].
  - destruct (str_eqb (toLowerCase (answer w)) (lit "y")) eqn:Heq;
      cbn [negb].
    + destruct (Hgo [Question NoRepositoryContinue] eq_refl) as (Hiff & _).
      cbv zeta in Hiff. rewrite Hiff.
      split; [|tauto]. intros H. split; [|exact H].
      right. apply toLowerCase_y, str_eqb_eq, Heq.
    + cbn [effects delivered]. split; [intros H; congruence|].
      intros [[H|[H|H]] _]; [congruence | |];
        rewrite H in Heq; vm_compute in Heq; discriminate Heq.
  - intros _. destruct (Hgo [] eq_refl) as (_ & Hin & _). cbv zeta in Hin. exact Hin.
  - intros [H|Hy]; [congruence|].
    assert (Heq : str_eqb (toLowerCase (answer w)) (lit "y") = true)
      by (destruct Hy as [-> | ->]; vm_compute; reflexivity).
    rewrite Heq. cbn [negb].
    destruct (Hgo [Question NoRepositoryContinue] eq_refl) as (_ & Hin & _).
    cbv zeta in Hin. exact Hin.
  - intros _. destruct (Hgo [] eq_refl) as (_ & _ & Hthrown).
    cbv zeta in Hthrown. exact Hthrown.
  - intros [H|Hy]; [congruence|].
    assert (Heq : str_eqb (toLowerCase (answer w)) (lit "y") = true)
      by (destruct Hy as [-> | ->]; vm_compute; reflexivity).
    rewrite Heq. cbn [negb].
    destruct (Hgo [Question NoRepositoryContinue] eq_refl)
      as (_ & _ & Hthrown).
    cbv zeta in Hthrown. exact Hthrown.
Qed.

(** In a repository the answer is not asked for: [libWorld], whose
    answer would be [n], goes on, and its one file can be decoded. *)
Lemma main_goes_on_iff_witness :
  delivered (effects (main libWorld)) <> None.
Proof.
  destruct (main_goes_on_iff libWorld) as (Hiff & _ & _ & Hdec).
  cbv zeta in Hiff, Hdec. apply Hiff. split.
  - left. vm_compute. discriminate.
  - apply Hdec. vm_compute. split; [discriminate | exact I].
Defined.

(* ================================================================== *)
(** ** What the detector samples *)
(* ================================================================== *)

(** X8.  Control characters are only looked for in the first 8000
    bytes: a buffer with no null byte whose first 8000 bytes are text
    is text, under an unlisted extension, whatever follows. *)
Theorem controls_past_sample_unseen (b : buffer) (filePath : jsstring) :
  has binaryExts (toLowerCase (extname filePath)) = false ->
  includes b 0 = false ->
  Forall (fun x => isTextByte x = true) (firstn (Z.to_nat 8000) b) ->
  isBinaryFile b filePath = false.
Proof.
  intros Hext Hnull Htext. unfold isBinaryFile. rewrite Hext, Hnull.
  rewrite count_text; [apply zero_ratio, sampleSize_range|].
  replace (firstn (Z.to_nat (Z.min (len b) 8000)) b)
    with (firstn (Z.to_nat (Z.min (len b) 8000)) (firstn (Z.to_nat 8000) b)).
  - apply Forall_firstn_text. exact Htext.
  - rewrite firstn_firstn. f_equal. unfold len. lia.
Qed.

Lemma controls_past_sample_unseen_witness :
  isBinaryFile lateControls (lit "/r/data.txt") = false.
Proof.
  apply (controls_past_sample_unseen lateControls (lit "/r/data.txt")).
  - vm_compute. reflexivity.
  - vm_compute. reflexivity.
  - apply Forall_forall. intros x Hin.
    assert (H : forallb isTextByte (firstn (Z.to_nat 8000) lateControls) = true)
      by (vm_compute; reflexivity).
    rewrite forallb_forall in H. exact (H x Hin).
Defined.

(* ================================================================== *)
(** ** How a run ends *)
(* ================================================================== *)

(** X9.  Every run ends by closing the prompt.  When the clipboard
    rejects the write, the run prints the failure with its message on
    the error stream and neither a success nor a truncation line.  The
    only other line ever printed on the error stream is the report of
    an unexpected error, by a run that hands nothing to the clipboard
    and exits with status 1. *)
Theorem main_closes_and_reports (w : world) :
  last (effects (main w)) (Question NoRepositoryContinue) = Close
  /\ (forall err,
        clipboard w = Some err ->
        delivered (effects (main w)) <> None ->
        In (ConsoleError (ClipboardFailed err)) (effects (main w))
        /\ ~ In (ConsoleLog CopiedToClipboard) (effects (main w))
        /\ ~ In (ConsoleLog OutputTruncated) (effects (main w)))
  /\ (forall m,
        In (ConsoleError m) (effects (main w)) ->
        (delivered (effects (main w)) <> None
         /\ exists err, clipboard w = Some err /\ m = ClipboardFailed err)
        \/ (delivered (effects (main w)) = None
            /\ m = UnexpectedError /\ exitCode (main w) = 1)).
Proof.
  assert (Hgen : forall gitRoot asked,
            asked = [] \/ asked = [Question NoRepositoryContinue] ->
            let run := proceed w gitRoot asked in
            last (effects run) (Question NoRepositoryContinue) = Close
            /\ (forall err,
                  clipboard w = Some err ->
                  delivered (effects run) <> None ->
                  In (ConsoleError (ClipboardFailed err)) (effects run)
                  /\ ~ In (ConsoleLog CopiedToClipboard) (effects run)
                  /\ ~ In (ConsoleLog OutputTruncated) (effects run))
            /\ (forall m,
                  In (ConsoleError m) (effects run) ->
                  (delivered (effects run) <> None
                   /\ exists err,
                        clipboard w = Some err /\ m = ClipboardFailed err)
                  \/ (delivered (effects run) = None
                      /\ m = UnexpectedError /\ exitCode run = 1))).
  { intros gitRoot asked Hasked. cbv zeta.
    destruct (proceed_run w gitRoot asked)
      as (units & _ & _ & _ & Hcases).
    destruct Hcases as [(walked & _ & _ & _ & ->)|(_ & Hexit & ->)].
    - split; [|split].
      + destruct Hasked as [-> | ->]; destruct (clipboard w); reflexivity.
      + intros err -> _.
        destruct Hasked as [-> | ->]; cbn [app In];
          (split; [tauto|]); split; intros H; decompose [or] H;
          try discriminate; assumption.
      + intros m H. left.
        split; [destruct Hasked as [-> | ->]; discriminate|].
        destruct (clipboard w) as [err|];
          destruct Hasked as [-> | ->]; cbn [app In] in H; decompose [or] H;
          try discriminate; try contradiction.
        all: match goal with
             | E : ConsoleError _ = ConsoleError _ |- _ =>
                 injection E as <-; eexists; split; reflexivity
             end.
    - split; [|split].
      + destruct Hasked as [-> | ->]; reflexivity.
      + intros err _ H. exfalso. apply H.
        destruct Hasked as [-> | ->]; reflexivity.
      + intros m H. right.
        split; [destruct Hasked as [-> | ->]; reflexivity|].
        split; [|exact Hexit].
        destruct Hasked as [-> | ->]; cbn [app In] in H; decompose [or] H;
          try discriminate; try contradiction.
        all: match goal with
             | E : ConsoleError _ = ConsoleError _ |- _ =>
                 injection E as <-; reflexivity
             end. }
  unfold main. destruct (isGitRepo w (cwd w)) as [r|].
  - exact (Hgen (Some r) [] (or_introl eq_refl)).
  - destruct (negb _).
    + cbn [effects last delivered In]. split; [reflexivity|].
      split; [intros err _ H; exfalso; apply H; reflexivity|].
      intros m H. decompose [or] H; try discriminate; contradiction.
    + exact (Hgen None [Question NoRepositoryContinue] (or_intror eq_refl)).
Qed.

(** [libWorld], whose clipboard says [no display]. *)
Lemma main_closes_and_reports_witness :
  In (ConsoleError (ClipboardFailed (lit "no display")))
    (effects (main libWorld))
  /\ ~ In (ConsoleLog CopiedToClipboard) (effects (main libWorld)).
Proof.
  destruct (proj1 (proj2 (main_closes_and_reports libWorld))
              (lit "no display") eq_refl) as (Herr & Hno & _).
  - vm_compute. discriminate.
  - split; assumption.
Defined.
